(** * Task CRUD routes of the todo backend: a shallow embedding

    The development follows [todo_backend/app/routes/tasks.py]:
    the module-level store ([_TASKS], [_NEXT_ID]), the two marshmallow
    input schemas, and the handlers of [TasksCollection] and
    [TaskResource].  Python values are modelled as they are used by the
    handlers: a [str] is a list of Unicode code points, the store is a
    finite map from ids to task records, and a handler is a computation in
    a state-and-exception monad over the store. *)

From Stdlib Require Import ZArith NArith Ascii Lia Bool.
From stdpp Require Import gmap strings list fin_maps sorting.

Local Open Scope Z_scope.

(** ** Python strings *)

(** A Python [str] is a sequence of code points. *)
Abbreviation pystr := (list N).

(** ASCII literals, for readable examples. *)
Definition str (s : string) : pystr :=
  N_of_ascii <$> String.list_ascii_of_string s.

(** The characters removed by [str.strip()] without arguments: those for
    which CPython's [Py_UNICODE_ISSPACE] holds. *)
Definition Py_UNICODE_ISSPACE (c : N) : bool :=
  ((0x09 <=? c) && (c <=? 0x0D) ||
   (0x1C <=? c) && (c <=? 0x20) ||
   (c =? 0x85) || (c =? 0xA0) || (c =? 0x1680) ||
   (0x2000 <=? c) && (c <=? 0x200A) ||
   (c =? 0x2028) || (c =? 0x2029) || (c =? 0x202F) ||
   (c =? 0x205F) || (c =? 0x3000))%N.

Fixpoint lstrip (s : pystr) : pystr :=
  match s with
  | c :: s' => if Py_UNICODE_ISSPACE c then lstrip s' else s
  | [] => []
  end.

Definition rstrip (s : pystr) : pystr := rev (lstrip (rev s)).

Definition strip (s : pystr) : pystr := rstrip (lstrip s).

(** Truthiness of a [str]: [not s] holds exactly for the empty string. *)
Definition not_str (s : pystr) : bool :=
  match s with [] => true | _ => false end.

(** A string made of whitespace only (the empty string included). *)
Definition whitespace_only (s : pystr) : bool := forallb Py_UNICODE_ISSPACE s.

(** ** Clock readings and [_now_iso] *)

(** A naive [datetime], as returned by [datetime.utcnow()]. *)
Record datetime := mkdatetime {
  year : Z; month : Z; day : Z;
  hour : Z; minute : Z; second : Z; microsecond : Z
}.

Definition digit (n : Z) : N := Z.to_N (48 + n mod 10).

Definition fmt2 (n : Z) : pystr := [digit (n / 10); digit n].
Definition fmt4 (n : Z) : pystr :=
  [digit (n / 1000); digit (n / 100); digit (n / 10); digit n].
Definition fmt6 (n : Z) : pystr :=
  [digit (n / 100000); digit (n / 10000); digit (n / 1000);
   digit (n / 100); digit (n / 10); digit n].

(** [datetime.isoformat()]: [YYYY-MM-DDTHH:MM:SS], followed by [.ffffff]
    when the microsecond is not zero. *)
Definition isoformat (d : datetime) : pystr :=
  fmt4 (year d) ++ str "-" ++ fmt2 (month d) ++ str "-" ++ fmt2 (day d) ++
  str "T" ++ fmt2 (hour d) ++ str ":" ++ fmt2 (minute d) ++ str ":" ++
  fmt2 (second d) ++
  (if microsecond d =? 0 then [] else str "." ++ fmt6 (microsecond d)).

(** [_now_iso()], given the reading [utcnow] of the clock. *)
Definition _now_iso (utcnow : datetime) : pystr := isoformat utcnow ++ str "Z".

(** ** Task records and the module-level store *)

Module Task.
Record t := mk {
  id : Z;
  title : pystr;
  completed : bool;
  created_at : pystr;
  updated_at : pystr
}.
End Task.

(** The two module globals. *)
Record store := mkstore {
  _TASKS : gmap Z Task.t;
  _NEXT_ID : Z
}.

(** The store at import time: [_TASKS = {}], [_NEXT_ID = 1]. *)
Definition initial : store := {| _TASKS := ∅; _NEXT_ID := 1 |}.

(** ** Errors *)

(** What a request can raise: the schema's [ValidationError], the
    [abort(400, ...)] and [abort(404, ...)] of the handlers, and an
    unhandled exception in a handler ([KeyError], [AttributeError]). *)
Inductive error := ValidationError | abort_400 | abort_404 | Unhandled.

(** The error kinds of the specification.  A body refused by a schema and
    an [abort(400, ...)] are both InvalidInput; an [abort(404, ...)] is
    NotFound. *)
Inductive ErrorKind := InvalidInput | NotFound | ServerError.

Definition kind (e : error) : ErrorKind :=
  match e with
  | ValidationError | abort_400 => InvalidInput
  | abort_404 => NotFound
  | Unhandled => ServerError
  end.

(** ** The handler monad: state passing over the store, with exceptions.
    An exception leaves the store as it is at the point of the raise. *)

Definition M (A : Type) : Type := store → (error + A) * store.

#[global] Instance M_ret : MRet M := λ A a st, (inr a, st).
#[global] Instance M_bind : MBind M := λ A B f m st,
  match m st with
  | (inr a, st') => f a st'
  | (inl e, st') => (inl e, st')
  end.

Definition raise {A} (e : error) : M A := λ st, (inl e, st).
Definition gets {A} (f : store → A) : M A := λ st, (inr (f st), st).
Definition modify (f : store → store) : M unit := λ st, (inr tt, f st).

(** Lifting of a pure, fallible computation (schema loading). *)
Definition lift {A} (r : error + A) : M A := λ st, (r, st).

#[global] Instance result_ret : MRet (sum error) := λ A a, inr a.
#[global] Instance result_bind : MBind (sum error) := λ A B f r,
  match r with
  | inr a => f a
  | inl e => inl e
  end.

(** ** Request bodies and the marshmallow schemas *)

(** The request body is a JSON object, decoded to a dictionary from keys
    to values.  The values modelled are [null], the booleans, the integers
    and the strings; numbers with a fraction, arrays and objects as field
    values are left out. *)
Inductive json :=
| JNull
| JBool (b : bool)
| JInt (n : Z)
| JStr (s : pystr).

(** [fields.String]: only a string is accepted. *)
Definition String_deserialize (value : json) : option pystr :=
  match value with
  | JStr s => Some s
  | _ => None
  end.

(** [fields.Boolean]: the default [truthy] and [falsy] tables. *)
Definition truthy : list string :=
  ["t"; "T"; "true"; "True"; "TRUE"; "on"; "On"; "ON";
   "y"; "Y"; "yes"; "Yes"; "YES"; "1"]%string.
Definition falsy : list string :=
  ["f"; "F"; "false"; "False"; "FALSE"; "off"; "Off"; "OFF";
   "n"; "N"; "no"; "No"; "NO"; "0"]%string.

Definition Boolean_deserialize (value : json) : option bool :=
  match value with
  | JBool b => Some b
  | JInt 1 => Some true
  | JInt 0 => Some false
  | JStr s =>
      if bool_decide (s ∈ str <$> truthy) then Some true
      else if bool_decide (s ∈ str <$> falsy) then Some false
      else None
  | _ => None
  end.

(** One declared field of a schema: a missing key is an error when the
    field is required and otherwise yields [load_default] (no entry when
    there is none); [null] is refused ([allow_none] is off); any other
    value goes through the field's deserializer. *)
Definition load_field {A} (deserialize : json → option A)
    (required : bool) (load_default : option A) (raw : option json)
    : error + option A :=
  match raw with
  | None => if required then inl ValidationError else inr load_default
  | Some JNull => inl ValidationError
  | Some value =>
      match deserialize value with
      | Some a => inr (Some a)
      | None => inl ValidationError
      end
  end.

(** Keys that are not declared fields are refused ([unknown = RAISE]). *)
Definition raise_unknown (body : gmap string json) : error + unit :=
  if bool_decide (dom body ⊆ ({["title"; "completed"]} : gset string))
  then inr tt else inl ValidationError.

(** The [payload] dictionary handed to a handler.  A key is absent
    ([None]) or bound to a value, which may be Python's [None]
    ([Some None]). *)
Module Payload.
Record t := mk {
  title : option (option pystr);
  completed : option (option bool)
}.
End Payload.

(** [not payload]: the dictionary is empty. *)
Definition not_payload (payload : Payload.t) : bool :=
  match Payload.title payload, Payload.completed payload with
  | None, None => true
  | _, _ => false
  end.

Module TaskCreateSchema.
Definition validate_title (value : pystr) : error + unit :=
  if not_str value || not_str (strip value)
  then inl ValidationError else inr tt.

Definition load (body : gmap string json) : error + Payload.t :=
  title ← load_field String_deserialize true None (body !! "title");
  completed ←
    load_field Boolean_deserialize false (Some false) (body !! "completed");
  raise_unknown body;;
  match title with Some value => validate_title value | None => inr tt end;;
  mret {| Payload.title := Some <$> title;
          Payload.completed := Some <$> completed |}.
End TaskCreateSchema.

Module TaskUpdateSchema.
Definition validate_title (value : option pystr) : error + unit :=
  match value with
  | Some v => if not_str (strip v) then inl ValidationError else inr tt
  | None => inr tt
  end.

Definition load (body : gmap string json) : error + Payload.t :=
  title ← load_field String_deserialize false None (body !! "title");
  completed ← load_field Boolean_deserialize false None (body !! "completed");
  raise_unknown body;;
  match title with Some _ => validate_title title | None => inr tt end;;
  mret {| Payload.title := Some <$> title;
          Payload.completed := Some <$> completed |}.
End TaskUpdateSchema.

(** ** The handlers *)

(** In-place assignment to the fields of the record stored under
    [task_id]: in the handlers [task] is a reference to the dictionary held
    by [_TASKS], so [task["title"] = v] changes the store. *)
Definition set_title (v : pystr) (t : Task.t) : Task.t :=
  {| Task.id := Task.id t; Task.title := v;
     Task.completed := Task.completed t;
     Task.created_at := Task.created_at t;
     Task.updated_at := Task.updated_at t |}.

Definition set_completed (v : bool) (t : Task.t) : Task.t :=
  {| Task.id := Task.id t; Task.title := Task.title t;
     Task.completed := v;
     Task.created_at := Task.created_at t;
     Task.updated_at := Task.updated_at t |}.

Definition set_updated_at (v : pystr) (t : Task.t) : Task.t :=
  {| Task.id := Task.id t; Task.title := Task.title t;
     Task.completed := Task.completed t;
     Task.created_at := Task.created_at t;
     Task.updated_at := v |}.

Definition setitem (task_id : Z) (f : Task.t → Task.t) : M unit :=
  modify (λ st, {| _TASKS := alter f task_id (_TASKS st);
                   _NEXT_ID := _NEXT_ID st |}).

(** The current contents of the dictionary [task] refers to. *)
Definition deref (task_id : Z) : M Task.t :=
  tasks ← gets _TASKS;
  match tasks !! task_id with
  | Some task => mret task
  | None => raise Unhandled
  end.

Module TasksCollection.
(** [list(_TASKS.values())]; the order of the listing is not modelled. *)
Definition _list_tasks : M (list Task.t) :=
  tasks ← gets _TASKS;
  mret (snd <$> map_to_list tasks).

Definition get : M (list Task.t) := _list_tasks.

Definition post (payload : Payload.t) (utcnow : datetime) : M Task.t :=
  task_id ← gets _NEXT_ID;
  modify (λ st, {| _TASKS := _TASKS st; _NEXT_ID := _NEXT_ID st + 1 |});;
  let now := _now_iso utcnow in
  match Payload.title payload with
  | Some (Some title) =>
      let task :=
        {| Task.id := task_id;
           Task.title := strip title;
           Task.completed :=
             match Payload.completed payload with
             | Some (Some b) => b
             | _ => false
             end;
           Task.created_at := now;
           Task.updated_at := now |} in
      modify (λ st, {| _TASKS := <[task_id := task]> (_TASKS st);
                       _NEXT_ID := _NEXT_ID st |});;
      mret task
  | _ => raise Unhandled
  end.

(** [POST /api/tasks]: the body goes through [TaskCreateSchema] before
    the handler runs. *)
Definition POST (body : gmap string json) (utcnow : datetime) : M Task.t :=
  payload ← lift (TaskCreateSchema.load body);
  post payload utcnow.
End TasksCollection.

Module TaskResource.
Definition _get_or_404 (task_id : Z) : M Task.t :=
  tasks ← gets _TASKS;
  match tasks !! task_id with
  | Some task => mret task
  | None => raise abort_404
  end.

Definition get (task_id : Z) : M Task.t := _get_or_404 task_id.

Definition put (payload : Payload.t) (task_id : Z) (utcnow : datetime)
    : M Task.t :=
  (if not_payload payload then raise abort_400 else mret tt);;
  _get_or_404 task_id;;
  let updated := false in
  updated ←
    match Payload.title payload with
    | Some (Some title) =>
        setitem task_id (set_title (strip title));; mret true
    | _ => mret updated
    end;
  updated ←
    match Payload.completed payload with
    | Some (Some b) => setitem task_id (set_completed b);; mret true
    | _ => mret updated
    end;
  (if negb updated then raise abort_400 else mret tt);;
  setitem task_id (set_updated_at (_now_iso utcnow));;
  deref task_id.

Definition patch (payload : Payload.t) (task_id : Z) (utcnow : datetime)
    : M Task.t :=
  _get_or_404 task_id;;
  (if not_payload payload then raise abort_400 else mret tt);;
  match Payload.title payload with
  | Some (Some title) =>
      (if not_str (strip title) then raise abort_400 else mret tt);;
      setitem task_id (set_title (strip title))
  | _ => mret tt
  end;;
  match Payload.completed payload with
  | Some (Some b) => setitem task_id (set_completed b)
  | _ => mret tt
  end;;
  setitem task_id (set_updated_at (_now_iso utcnow));;
  deref task_id.

Definition delete (task_id : Z) : M unit :=
  _get_or_404 task_id;;
  modify (λ st, {| _TASKS := base.delete task_id (_TASKS st);
                   _NEXT_ID := _NEXT_ID st |}).

(** The routes: [PUT] and [PATCH] load the body through
    [TaskUpdateSchema] before the handler runs. *)
Definition GET (task_id : Z) : M Task.t := get task_id.

Definition PUT (task_id : Z) (body : gmap string json) (utcnow : datetime)
    : M Task.t :=
  payload ← lift (TaskUpdateSchema.load body);
  put payload task_id utcnow.

Definition PATCH (task_id : Z) (body : gmap string json) (utcnow : datetime)
    : M Task.t :=
  payload ← lift (TaskUpdateSchema.load body);
  patch payload task_id utcnow.

Definition DELETE (task_id : Z) : M unit := delete task_id.
End TaskResource.

(** ** Requests and runs of the service *)

Inductive request :=
| ListTasks
| CreateTask (body : gmap string json)
| GetTask (task_id : Z)
| ReplaceTask (task_id : Z) (body : gmap string json)
| UpdateTask (task_id : Z) (body : gmap string json)
| DeleteTask (task_id : Z).

Inductive response :=
| Listing (tasks : list Task.t)
| Created (task : Task.t)
| Ok (task : Task.t)
| NoContent
| Error (e : error).

Definition respond {A} (f : A → response) (m : M A) (st : store)
    : response * store :=
  match m st with
  | (inr a, st') => (f a, st')
  | (inl e, st') => (Error e, st')
  end.

(** Routing: every request is served by its view, at the clock reading
    [utcnow]. *)
Definition dispatch (r : request) (utcnow : datetime) (st : store)
    : response * store :=
  match r with
  | ListTasks => respond Listing TasksCollection.get st
  | CreateTask body => respond Created (TasksCollection.POST body utcnow) st
  | GetTask task_id => respond Ok (TaskResource.GET task_id) st
  | ReplaceTask task_id body =>
      respond Ok (TaskResource.PUT task_id body utcnow) st
  | UpdateTask task_id body =>
      respond Ok (TaskResource.PATCH task_id body utcnow) st
  | DeleteTask task_id =>
      respond (λ _, NoContent) (TaskResource.DELETE task_id) st
  end.

(** A run of the process: requests served one after the other, each with
    the clock reading taken while it is served. *)
Fixpoint serve (reqs : list (request * datetime)) (st : store)
    : list response * store :=
  match reqs with
  | [] => ([], st)
  | (r, utcnow) :: reqs' =>
      let '(resp, st') := dispatch r utcnow st in
      let '(resps, st'') := serve reqs' st' in
      (resp :: resps, st'')
  end.

(** The ids handed out by the successful creations of a run, in order. *)
Definition created_id (r : response) : option Z :=
  match r with
  | Created task => Some (Task.id task)
  | _ => None
  end.

Definition created_ids (resps : list response) : list Z :=
  omap created_id resps.

(** ** Auxiliary definitions used in the statements *)

(** The record an accepted update leaves behind: the supplied fields are
    applied and [updated_at] is set to [now]. *)
Definition apply_update (p : Payload.t) (now : pystr) (t : Task.t) : Task.t :=
  {| Task.id := Task.id t;
     Task.title :=
       match Payload.title p with
       | Some (Some title) => strip title
       | _ => Task.title t
       end;
     Task.completed :=
       match Payload.completed p with
       | Some (Some b) => b
       | _ => Task.completed t
       end;
     Task.created_at := Task.created_at t;
     Task.updated_at := now |}.

Definition with_tasks (st : store) (tasks : gmap Z Task.t) : store :=
  {| _TASKS := tasks; _NEXT_ID := _NEXT_ID st |}.

(** Unfolding of the monadic plumbing. *)
Ltac unfold_result :=
  unfold mbind, mret, result_bind, result_ret in *.

Ltac unfold_M :=
  unfold mbind, mret, M_bind, M_ret, raise, gets, modify, lift in *.


(** A response as the specification reads it: the result, or the kind of
    the error, together with the store the request leaves. *)
Definition outcome {A} (r : (error + A) * store) : (ErrorKind + A) * store :=
  match r with
  | (inl e, st) => (inl (kind e), st)
  | (inr a, st) => (inr a, st)
  end.

(** A stored title is acceptable when it is neither empty nor made of
    whitespace only. *)
Definition title_ok (s : pystr) : Prop :=
  s ≠ [] ∧ whitespace_only s = false.

Definition titles_ok (st : store) : Prop :=
  map_Forall (λ _ t, title_ok (Task.title t)) (_TASKS st).

(** ** Timestamps as instants *)

(** The field ranges of a [datetime] object. *)
Definition valid_datetime (d : datetime) : bool :=
  (1 <=? year d) && (year d <=? 9999) &&
  (1 <=? month d) && (month d <=? 12) &&
  (1 <=? day d) && (day d <=? 31) &&
  (0 <=? hour d) && (hour d <=? 23) &&
  (0 <=? minute d) && (minute d <=? 59) &&
  (0 <=? second d) && (second d <=? 59) &&
  (0 <=? microsecond d) && (microsecond d <=? 999999).

(** Naive datetimes compare field by field, the year first. *)
Definition fields (d : datetime) : list Z :=
  [year d; month d; day d; hour d; minute d; second d; microsecond d].

Fixpoint lex_le (a b : list Z) : bool :=
  match a, b with
  | x :: a', y :: b' => (x <? y) || ((x =? y) && lex_le a' b')
  | _, _ => true
  end.

Definition datetime_le (a b : datetime) : bool := lex_le (fields a) (fields b).

(** Reading back a timestamp written by [_now_iso]. *)
Definition undigit (c : N) : option Z :=
  if ((48 <=? c) && (c <=? 57))%N then Some (Z.of_N c - 48) else None.

Fixpoint number (acc : Z) (s : pystr) : option Z :=
  match s with
  | [] => Some acc
  | c :: s' => n ← undigit c; number (10 * acc + n) s'
  end.

Definition read (width : nat) (s : pystr) : option (Z * pystr) :=
  if (length (take width s) =? width)%nat
  then n ← number 0 (take width s); Some (n, drop width s)
  else None.

Definition expect (c : string) (s : pystr) : option pystr :=
  match s with
  | x :: s' => if bool_decide ([x] = str c) then Some s' else None
  | [] => None
  end.

Definition parse_timestamp (s : pystr) : option datetime :=
  '(y, s) ← read 4 s; s ← expect "-" s;
  '(mo, s) ← read 2 s; s ← expect "-" s;
  '(d, s) ← read 2 s; s ← expect "T" s;
  '(h, s) ← read 2 s; s ← expect ":" s;
  '(mi, s) ← read 2 s; s ← expect ":" s;
  '(sec, s) ← read 2 s;
  '(us, s) ← match expect "." s with
             | Some s' => read 6 s'
             | None => Some (0, s)
             end;
  s ← expect "Z" s;
  match s with
  | [] => Some (mkdatetime y mo d h mi sec us)
  | _ => None
  end.

(** The order of two timestamps is the order of the instants they
    denote. *)
Definition timestamp_le (a b : pystr) : bool :=
  match parse_timestamp a, parse_timestamp b with
  | Some x, Some y => datetime_le x y
  | _, _ => false
  end.

(** Python's [<=] on [str]: the order of the code points, a proper prefix
    coming first. *)
Fixpoint str_le (a b : pystr) : bool :=
  match a, b with
  | [], _ => true
  | _ :: _, [] => false
  | x :: a', y :: b' => (x <? y)%N || ((x =? y)%N && str_le a' b')
  end.

(** The clock readings of a run never go back. *)
Fixpoint nondecreasing (readings : list datetime) : bool :=
  match readings with
  | d :: readings' =>
      match readings' with
      | d' :: _ => datetime_le d d'
      | [] => true
      end && nondecreasing readings'
  | [] => true
  end.

(** Every [updated_at] in the store was written by [_now_iso] at a
    reading not later than [d]. *)
Definition stamped (d : datetime) (st : store) : Prop :=
  map_Forall
    (λ _ t, ∃ d', valid_datetime d' = true ∧ datetime_le d' d = true ∧
                  Task.updated_at t = _now_iso d')
    (_TASKS st).

(** Every record is filed under its own id, and every id in use was handed
    out by the counter. *)
Definition ids_ok (st : store) : Prop :=
  1 ≤ _NEXT_ID st ∧
  map_Forall (λ k t, Task.id t = k ∧ 1 ≤ k < _NEXT_ID st) (_TASKS st).

(** ** Sample requests *)

Definition clock0 : datetime := mkdatetime 2024 5 17 9 30 0 0.
Definition clock1 : datetime := mkdatetime 2024 5 17 9 30 0 250000.

Definition body_buy_milk : gmap string json :=
  {[ "title" := JStr (str "  Buy milk  ") ]}.
Definition body_blank : gmap string json :=
  {[ "title" := JStr (str "   ") ]}.
Definition body_completed : gmap string json :=
  {[ "completed" := JBool true ]}.

Definition buy_milk : Task.t :=
  {| Task.id := 1; Task.title := str "Buy milk"; Task.completed := false;
     Task.created_at := str "2024-05-17T09:30:00Z";
     Task.updated_at := str "2024-05-17T09:30:00Z" |}.

(** The store after one creation. *)
Definition one_task : store :=
  {| _TASKS := {[ 1 := buy_milk ]}; _NEXT_ID := 2 |}.

(** The run that leaves [one_task]. *)
Definition one_request : list (request * datetime) :=
  [(CreateTask body_buy_milk, clock0)].

(** ** Further definitions used in the statements *)

(** The key a request may write: the id it addresses, and for a creation
    the id about to be handed out. *)
Definition target (r : request) (st : store) : option Z :=
  match r with
  | ListTasks | GetTask _ => None
  | CreateTask _ => Some (_NEXT_ID st)
  | ReplaceTask task_id _ | UpdateTask task_id _ | DeleteTask task_id =>
      Some task_id
  end.

(** A payload carries a field the handlers apply: a key bound to a value
    other than [None]. *)
Definition has_field (payload : Payload.t) : bool :=
  match Payload.title payload, Payload.completed payload with
  | Some (Some _), _ | _, Some (Some _) => true
  | _, _ => false
  end.

(** A payload whose title is a string that strips to the empty string. *)
Definition blank_title (payload : Payload.t) : bool :=
  match Payload.title payload with
  | Some (Some title) => not_str (strip title)
  | _ => false
  end.

(** Stored titles carry no whitespace at either end. *)
Definition titles_stripped (st : store) : Prop :=
  map_Forall (λ _ t, strip (Task.title t) = Task.title t) (_TASKS st).

(** Both timestamps of every record were written by [_now_iso], the
    creation not after the last update, and the last update not after
    the reading [d]. *)
Definition stamped_in_order (d : datetime) (st : store) : Prop :=
  map_Forall
    (λ _ t, ∃ dc du,
       valid_datetime dc = true ∧ valid_datetime du = true ∧
       datetime_le dc du = true ∧ datetime_le du d = true ∧
       Task.created_at t = _now_iso dc ∧ Task.updated_at t = _now_iso du)
    (_TASKS st).

(** A second sample store, with two tasks. *)
Definition walk_dog : Task.t :=
  {| Task.id := 2; Task.title := str "Walk dog"; Task.completed := true;
     Task.created_at := str "2024-05-17T09:30:00.250000Z";
     Task.updated_at := str "2024-05-17T09:30:00.250000Z" |}.

Definition body_walk_dog : gmap string json :=
  {[ "title" := JStr (str "Walk dog "); "completed" := JStr (str "yes") ]}.

Definition two_tasks : store :=
  {| _TASKS := {[ 1 := buy_milk; 2 := walk_dog ]}; _NEXT_ID := 3 |}.

(** [TaskResponseSchema]: the JSON object a task is sent as, with the five
    declared fields. *)
Module TaskResponseSchema.
Definition dump (t : Task.t) : gmap string json :=
  {[ "id" := JInt (Task.id t);
     "title" := JStr (Task.title t);
     "completed" := JBool (Task.completed t);
     "created_at" := JStr (Task.created_at t);
     "updated_at" := JStr (Task.updated_at t) ]}.
End TaskResponseSchema.

(** The two fields of a task a client may send, as a request body. *)
Definition editable_fields (t : Task.t) : gmap string json :=
  {[ "title" := JStr (Task.title t);
     "completed" := JBool (Task.completed t) ]}.

(** Three-way comparison of two [str], by code points. *)
Fixpoint str_cmp (a b : pystr) : comparison :=
  match a, b with
  | [], [] => Eq
  | [], _ :: _ => Lt
  | _ :: _, [] => Gt
  | x :: a', y :: b' =>
      match (x ?= y)%N with
      | Eq => str_cmp a' b'
      | c => c
      end
  end.

(** [stored] is [sent] with the whitespace at its two ends removed: [sent]
    is [stored] between two runs of whitespace, and [stored] neither
    starts nor ends with whitespace. *)
Definition trimmed (sent stored : pystr) : Prop :=
  ∃ l r,
    sent = l ++ stored ++ r ∧
    whitespace_only l = true ∧ whitespace_only r = true ∧
    (∀ c, head stored = Some c → Py_UNICODE_ISSPACE c = false) ∧
    (∀ c, last stored = Some c → Py_UNICODE_ISSPACE c = false).

(** Two more readings of the clock: one before [clock1], one after. *)
Definition clock_back : datetime := mkdatetime 2024 5 17 9 29 59 999999.
Definition clock2 : datetime := mkdatetime 2024 5 17 9 30 1 500000.

(** The run that leaves [two_tasks]. *)
Definition two_requests : list (request * datetime) :=
  [(CreateTask body_buy_milk, clock0); (CreateTask body_walk_dog, clock1)].

(** A run whose only request is served at [clock1], and the task it
    leaves. *)
Definition late_start : list (request * datetime) :=
  [(CreateTask body_buy_milk, clock1)].

Definition late_milk : Task.t :=
  {| Task.id := 1; Task.title := str "Buy milk"; Task.completed := false;
     Task.created_at := str "2024-05-17T09:30:00.250000Z";
     Task.updated_at := str "2024-05-17T09:30:00.250000Z" |}.
(** * Properties *)

(** ** Stripping *)

Lemma lstrip_head s c r : lstrip s = c :: r → Py_UNICODE_ISSPACE c = false.
Proof.
  induction s as [|a s IH]; simpl; [done|].
  destruct (Py_UNICODE_ISSPACE a) eqn:Ha; [done|].
  intros [= <- _]. done.
Qed.

Lemma lstrip_nil_iff s : lstrip s = [] ↔ whitespace_only s = true.
Proof.
  unfold whitespace_only.
  induction s as [|a s IH]; simpl; [done|].
  destruct (Py_UNICODE_ISSPACE a); simpl; [done|].
  split; discriminate.
Qed.

Lemma whitespace_only_app s1 s2 :
  whitespace_only (s1 ++ s2) = whitespace_only s1 && whitespace_only s2.
Proof. apply forallb_app. Qed.

Lemma whitespace_only_rev s : whitespace_only (rev s) = whitespace_only s.
Proof.
  induction s as [|a s IH]; simpl; [done|].
  rewrite whitespace_only_app, IH. simpl.
  rewrite andb_true_r. apply andb_comm.
Qed.

(** What [lstrip] removes is whitespace. *)
Lemma lstrip_whitespace_only s :
  whitespace_only s = whitespace_only (lstrip s).
Proof.
  induction s as [|a s IH]; simpl; [done|].
  destruct (Py_UNICODE_ISSPACE a) eqn:Ha; simpl; [done|].
  by rewrite Ha.
Qed.

Lemma strip_nil_iff s : strip s = [] ↔ whitespace_only s = true.
Proof.
  unfold strip, rstrip.
  rewrite (lstrip_whitespace_only s), <- (whitespace_only_rev (lstrip s)).
  rewrite <- lstrip_nil_iff.
  split; intros H.
  - apply (f_equal (@rev N)) in H. by rewrite rev_involutive in H.
  - by rewrite H.
Qed.

(** A stripped string that is not empty ends with a character that is not
    whitespace; in particular it is not made of whitespace only. *)
Lemma strip_not_whitespace_only s :
  strip s ≠ [] → whitespace_only (strip s) = false.
Proof.
  unfold strip, rstrip. intros Hne.
  destruct (lstrip (rev (lstrip s))) as [|c r] eqn:E; [done|].
  apply lstrip_head in E.
  rewrite whitespace_only_rev. simpl. by rewrite E.
Qed.

Lemma not_str_false s : not_str s = false ↔ s ≠ [].
Proof. destruct s; simpl; split; done. Qed.

Example strip_buy_milk : strip (str "  Buy milk  ") = str "Buy milk".
Proof. reflexivity. Qed.

Example strip_blank : strip (str "   ") = [].
Proof. reflexivity. Qed.

(** [strip] also removes the whitespace outside ASCII (here a no-break
    space and an ideographic space around a tab). *)
Example strip_unicode : strip [0xA0; 0x09; 0x3000]%N = [].
Proof. reflexivity. Qed.

Lemma lstrip_lstrip s : lstrip (lstrip s) = lstrip s.
Proof.
  induction s as [|a s IH]; simpl; [done|].
  destruct (Py_UNICODE_ISSPACE a) eqn:Ha; [done|]. simpl. by rewrite Ha.
Qed.

Lemma lstrip_snoc s c :
  Py_UNICODE_ISSPACE c = false → lstrip (s ++ [c]) = lstrip s ++ [c].
Proof.
  intros Hc. induction s as [|a s IH]; simpl; [by rewrite Hc|].
  by destruct (Py_UNICODE_ISSPACE a).
Qed.

Lemma rstrip_cons c s :
  Py_UNICODE_ISSPACE c = false → rstrip (c :: s) = c :: rstrip s.
Proof.
  intros Hc. unfold rstrip. simpl.
  rewrite lstrip_snoc by done. by rewrite rev_app_distr.
Qed.

Lemma lstrip_decompose s :
  ∃ l, s = l ++ lstrip s ∧ whitespace_only l = true.
Proof.
  induction s as [|a s (l & Hs & Hl)]; simpl; [by exists []|].
  destruct (Py_UNICODE_ISSPACE a) eqn:Ha.
  - exists (a :: l). simpl. rewrite Ha, Hl. split; [congruence|done].
  - by exists [].
Qed.

Lemma rstrip_decompose s :
  ∃ r, s = rstrip s ++ r ∧ whitespace_only r = true.
Proof.
  unfold rstrip. destruct (lstrip_decompose (rev s)) as (l & Hs & Hl).
  exists (rev l). rewrite whitespace_only_rev. split; [|done].
  rewrite <- rev_app_distr, <- Hs. by rewrite rev_involutive.
Qed.

Lemma strip_head s c : head (strip s) = Some c → Py_UNICODE_ISSPACE c = false.
Proof.
  unfold strip.
  destruct (lstrip s) as [|a r] eqn:E; [done|].
  pose proof (lstrip_head _ _ _ E) as Ha.
  rewrite rstrip_cons by done. simpl. congruence.
Qed.

Lemma strip_last s c : last (strip s) = Some c → Py_UNICODE_ISSPACE c = false.
Proof.
  unfold strip, rstrip.
  destruct (lstrip (rev (lstrip s))) as [|a r] eqn:E; [done|].
  pose proof (lstrip_head _ _ _ E) as Ha.
  simpl. rewrite last_snoc. congruence.
Qed.

(** Stripping twice is stripping once. *)
Lemma strip_strip s : strip (strip s) = strip s.
Proof.
  unfold strip.
  assert (lstrip (rstrip (lstrip s)) = rstrip (lstrip s)) as ->.
  { destruct (lstrip s) as [|a r] eqn:E; [done|].
    pose proof (lstrip_head _ _ _ E) as Ha.
    rewrite rstrip_cons by done. simpl. by rewrite Ha. }
  unfold rstrip. by rewrite rev_involutive, lstrip_lstrip.
Qed.

(** ** The schemas *)

Lemma load_field_error {A} (de : json → option A) rq dflt raw e :
  load_field de rq dflt raw = inl e → e = ValidationError.
Proof.
  unfold load_field. intros H.
  destruct raw as [[]|]; repeat case_match; congruence.
Qed.

Lemma load_field_missing {A} (de : json → option A) dflt :
  load_field de false dflt None = inr dflt.
Proof. done. Qed.

Lemma load_field_ok {A} (de : json → option A) rq dflt raw a :
  load_field de rq dflt raw = inr a →
  (raw = None ∧ rq = false ∧ a = dflt) ∨
  (∃ v b, raw = Some v ∧ v ≠ JNull ∧ de v = Some b ∧ a = Some b).
Proof.
  unfold load_field. intros H.
  destruct raw as [v|].
  - right. destruct v; try discriminate;
      (destruct (de _) as [x|] eqn:E; [|discriminate]);
      injection H as <-; eauto 6.
  - left. destruct rq; [discriminate|]. by injection H as <-.
Qed.

Lemma String_deserialize_Some v s : String_deserialize v = Some s → v = JStr s.
Proof. destruct v; simpl; congruence. Qed.

Lemma raise_unknown_error body e :
  raise_unknown body = inl e → e = ValidationError.
Proof. unfold raise_unknown. case_bool_decide; congruence. Qed.

Lemma create_load_error body e :
  TaskCreateSchema.load body = inl e → e = ValidationError.
Proof.
  unfold TaskCreateSchema.load, TaskCreateSchema.validate_title.
  unfold_result. intros H.
  repeat (case_match; simplify_eq);
    eauto using @load_field_error, raise_unknown_error.
Qed.

Lemma update_load_error body e :
  TaskUpdateSchema.load body = inl e → e = ValidationError.
Proof.
  unfold TaskUpdateSchema.load, TaskUpdateSchema.validate_title.
  unfold_result. intros H.
  repeat (case_match; simplify_eq);
    eauto using @load_field_error, raise_unknown_error.
Qed.

(** The bodies [TaskCreateSchema] accepts: a string title that is not blank
    and, when [completed] is given, a value of the Boolean tables. *)
Lemma create_load_ok body p :
  TaskCreateSchema.load body = inr p →
  ∃ s b, body !! "title" = Some (JStr s) ∧ strip s ≠ [] ∧
         p = {| Payload.title := Some (Some s);
                Payload.completed := Some (Some b) |}.
Proof.
  unfold TaskCreateSchema.load, TaskCreateSchema.validate_title.
  unfold_result. intros H.
  destruct (load_field String_deserialize _ _ _) as [|t] eqn:Ht; [done|].
  destruct (load_field Boolean_deserialize _ _ _) as [|c] eqn:Hc; [done|].
  destruct (raise_unknown body); [done|].
  apply load_field_ok in Ht as [(_ & ? & _)|(v & s & Hv & _ & Hs & ->)];
    [done|].
  apply String_deserialize_Some in Hs as ->.
  destruct (not_str s || not_str (strip s)) eqn:E; [done|].
  apply orb_false_elim in E as [_ E%not_str_false].
  injection H as <-.
  apply load_field_ok in Hc as [(_ & _ & ->)|(? & b & _ & _ & _ & ->)];
    eauto.
Qed.

(** The bodies [TaskUpdateSchema] accepts. *)
Lemma update_load_ok body p :
  TaskUpdateSchema.load body = inr p →
  dom body ⊆ ({["title"; "completed"]} : gset string) ∧
  ((body !! "title" = None ∧ Payload.title p = None) ∨
   (∃ s, body !! "title" = Some (JStr s) ∧ strip s ≠ [] ∧
         Payload.title p = Some (Some s))) ∧
  ((body !! "completed" = None ∧ Payload.completed p = None) ∨
   (∃ v b, body !! "completed" = Some v ∧ Boolean_deserialize v = Some b ∧
           Payload.completed p = Some (Some b))).
Proof.
  unfold TaskUpdateSchema.load, TaskUpdateSchema.validate_title.
  unfold_result. intros H.
  destruct (load_field String_deserialize _ _ _) as [|t] eqn:Ht; [done|].
  destruct (load_field Boolean_deserialize _ _ _) as [|c] eqn:Hc; [done|].
  unfold raise_unknown in H. case_bool_decide as Hdom; [|done].
  split; [done|].
  apply load_field_ok in Ht as [(Ht & _ & ->)|(v & s & Hv & _ & Hs & ->)].
  - injection H as <-. split; [by left|].
    apply load_field_ok in Hc as [(? & _ & ->)|(v & b & ? & _ & ? & ->)];
      [by left|right; eauto].
  - apply String_deserialize_Some in Hs as ->.
    destruct (not_str (strip s)) eqn:E; [done|].
    apply not_str_false in E. injection H as <-.
    split; [right; eauto|].
    apply load_field_ok in Hc as [(? & _ & ->)|(v & b & ? & _ & ? & ->)];
      [by left|right; eauto].
Qed.

(** ** The views, computed *)

Lemma with_tasks_same st : with_tasks st (_TASKS st) = st.
Proof. by destruct st. Qed.

Lemma POST_rejected body utcnow st e :
  TaskCreateSchema.load body = inl e →
  TasksCollection.POST body utcnow st = (inl e, st).
Proof. intros H. unfold TasksCollection.POST. unfold_M. by rewrite H. Qed.

Lemma POST_accepted body utcnow st s b :
  TaskCreateSchema.load body =
    inr {| Payload.title := Some (Some s);
           Payload.completed := Some (Some b) |} →
  let task := {| Task.id := _NEXT_ID st; Task.title := strip s;
                 Task.completed := b;
                 Task.created_at := _now_iso utcnow;
                 Task.updated_at := _now_iso utcnow |} in
  TasksCollection.POST body utcnow st =
    (inr task, {| _TASKS := <[_NEXT_ID st := task]> (_TASKS st);
                  _NEXT_ID := _NEXT_ID st + 1 |}).
Proof.
  intros H. unfold TasksCollection.POST, TasksCollection.post. unfold_M.
  by rewrite H.
Qed.

Lemma PUT_rejected task_id body utcnow st e :
  TaskUpdateSchema.load body = inl e →
  TaskResource.PUT task_id body utcnow st = (inl e, st).
Proof. intros H. unfold TaskResource.PUT. unfold_M. by rewrite H. Qed.

Lemma PATCH_rejected task_id body utcnow st e :
  TaskUpdateSchema.load body = inl e →
  TaskResource.PATCH task_id body utcnow st = (inl e, st).
Proof. intros H. unfold TaskResource.PATCH. unfold_M. by rewrite H. Qed.

Lemma PUT_accepted task_id body utcnow st p :
  TaskUpdateSchema.load body = inr p →
  TaskResource.PUT task_id body utcnow st =
    if not_payload p then (inl abort_400, st)
    else match _TASKS st !! task_id with
         | None => (inl abort_404, st)
         | Some t =>
             let t' := apply_update p (_now_iso utcnow) t in
             (inr t', with_tasks st (<[task_id := t']> (_TASKS st)))
         end.
Proof.
  intros H. pose proof (update_load_ok _ _ H) as (_ & Ht & Hc).
  unfold TaskResource.PUT, TaskResource.put, TaskResource._get_or_404,
    setitem, deref, with_tasks, apply_update, not_payload.
  unfold_M. rewrite H. clear H.
  destruct p as [pt pc]; simpl in *.
  destruct Ht as [[_ ->]|(s & _ & _ & ->)],
           Hc as [[_ ->]|(v & b & _ & _ & ->)]; simpl; [done|..];
    destruct (_TASKS st !! task_id) as [t|] eqn:E; simpl; try done;
    rewrite ?lookup_alter_eq, ?E; simpl;
    rewrite !(alter_alt_Some _ _ _ _ E), ?alter_insert_eq; done.
Qed.

Lemma PATCH_accepted task_id body utcnow st p :
  TaskUpdateSchema.load body = inr p →
  TaskResource.PATCH task_id body utcnow st =
    match _TASKS st !! task_id with
    | None => (inl abort_404, st)
    | Some t =>
        if not_payload p then (inl abort_400, st)
        else
          let t' := apply_update p (_now_iso utcnow) t in
          (inr t', with_tasks st (<[task_id := t']> (_TASKS st)))
    end.
Proof.
  intros H. pose proof (update_load_ok _ _ H) as (_ & Ht & Hc).
  unfold TaskResource.PATCH, TaskResource.patch, TaskResource._get_or_404,
    setitem, deref, with_tasks, apply_update, not_payload.
  unfold_M. rewrite H. clear H.
  destruct p as [pt pc]; simpl in *.
  destruct (_TASKS st !! task_id) as [t|] eqn:E; simpl; [|done].
  destruct Ht as [[_ ->]|(s & _ & Hs%not_str_false & ->)],
           Hc as [[_ ->]|(v & b & _ & _ & ->)]; simpl; [done|..];
    rewrite ?Hs; simpl;
    rewrite ?lookup_alter_eq, ?E; simpl;
    rewrite !(alter_alt_Some _ _ _ _ E), ?alter_insert_eq; done.
Qed.

Lemma GET_run task_id st :
  TaskResource.GET task_id st =
    match _TASKS st !! task_id with
    | Some t => (inr t, st)
    | None => (inl abort_404, st)
    end.
Proof.
  unfold TaskResource.GET, TaskResource.get, TaskResource._get_or_404.
  unfold_M. by destruct (_TASKS st !! task_id).
Qed.

Lemma DELETE_run task_id st :
  TaskResource.DELETE task_id st =
    match _TASKS st !! task_id with
    | Some _ => (inr tt, with_tasks st (delete task_id (_TASKS st)))
    | None => (inl abort_404, st)
    end.
Proof.
  unfold TaskResource.DELETE, TaskResource.delete, TaskResource._get_or_404.
  unfold_M. by destruct (_TASKS st !! task_id).
Qed.

(** ** Examples *)

Example create_buy_milk :
  TasksCollection.POST body_buy_milk clock0 initial = (inr buy_milk, one_task).
Proof. reflexivity. Qed.

Example list_initially_empty : TasksCollection.get initial = (inr [], initial).
Proof. reflexivity. Qed.

Example create_empty_object :
  TasksCollection.POST ∅ clock0 initial = (inl ValidationError, initial).
Proof. reflexivity. Qed.

Example get_missing :
  TaskResource.GET 9999 one_task = (inl abort_404, one_task).
Proof. reflexivity. Qed.

Example complete_buy_milk :
  TaskResource.PATCH 1 body_completed clock1 one_task =
    (inr (set_updated_at (str "2024-05-17T09:30:00.250000Z")
            (set_completed true buy_milk)),
     {| _TASKS :=
          {[ 1 := set_updated_at (str "2024-05-17T09:30:00.250000Z")
                    (set_completed true buy_milk) ]};
        _NEXT_ID := 2 |}).
Proof. reflexivity. Qed.

(** ** Creation *)

(** C1: a create request whose title is missing, or is empty once
    stripped, fails with InvalidInput and leaves the store as it was: no
    record is added and [_NEXT_ID] is not advanced. *)
Theorem create_without_title_rejected body utcnow st :
  (body !! "title" = None ∨
   ∃ s, body !! "title" = Some (JStr s) ∧ strip s = []) →
  ∃ e, TasksCollection.POST body utcnow st = (inl e, st) ∧
       kind e = InvalidInput.
Proof.
  intros Hbody.
  destruct (TaskCreateSchema.load body) as [e|p] eqn:Hload.
  - exists e. split; [by apply POST_rejected|].
    by rewrite (create_load_error _ _ Hload).
  - apply create_load_ok in Hload as (s & b & Hs & Hne & _).
    destruct Hbody as [Hnone|(s' & Hs' & Hnil)]; congruence.
Qed.

Lemma create_without_title_rejected_witness :
  (body_blank !! "title" = None ∨
   ∃ s, body_blank !! "title" = Some (JStr s) ∧ strip s = []) ∧
  ∃ e, TasksCollection.POST body_blank clock0 one_task = (inl e, one_task) ∧
       kind e = InvalidInput.
Proof.
  assert (H : body_blank !! "title" = None ∨
              ∃ s, body_blank !! "title" = Some (JStr s) ∧ strip s = []).
  { right. exists (str "   "). split; reflexivity. }
  split; [exact H|].
  exact (create_without_title_rejected body_blank clock0 one_task H).
Defined.

(** C3: a valid create request followed at once by a get of the returned
    id: the get succeeds with the very record the creation returned (same
    id, title, completed, created_at and updated_at), and that record has
    equal timestamps. *)
Theorem create_then_get body utcnow st p :
  TaskCreateSchema.load body = inr p →
  ∃ task st',
    TasksCollection.POST body utcnow st = (inr task, st') ∧
    TaskResource.GET (Task.id task) st' = (inr task, st') ∧
    Task.created_at task = Task.updated_at task.
Proof.
  intros Hload.
  destruct (create_load_ok _ _ Hload) as (s & b & _ & _ & ->).
  eexists _, _. split; [by apply POST_accepted|].
  split; [|done].
  rewrite GET_run. simpl. by rewrite lookup_insert_eq.
Qed.

Lemma create_then_get_witness :
  TaskCreateSchema.load body_buy_milk =
    inr {| Payload.title := Some (Some (str "  Buy milk  "));
           Payload.completed := Some (Some false) |} ∧
  ∃ task st',
    TasksCollection.POST body_buy_milk clock0 initial = (inr task, st') ∧
    TaskResource.GET (Task.id task) st' = (inr task, st') ∧
    Task.created_at task = Task.updated_at task.
Proof.
  split; [reflexivity|].
  exact (create_then_get body_buy_milk clock0 initial _ eq_refl).
Defined.

(** ** Replace and partial update *)

(** An accepted body with neither field is the empty object. *)
Lemma update_load_empty body p :
  TaskUpdateSchema.load body = inr p →
  not_payload p = true ↔ body = ∅.
Proof.
  intros H. apply update_load_ok in H as (Hdom & Ht & Hc).
  unfold not_payload. split.
  - intros Hp. apply map_eq. intros k. rewrite lookup_empty.
    destruct (body !! k) as [v|] eqn:Hk; [|done].
    assert (k ∈ dom body) as Hin by (apply elem_of_dom; eauto).
    apply Hdom in Hin.
    destruct p as [pt pc]; simpl in *.
    destruct Ht as [[? ->]|(? & ? & _ & ->)],
             Hc as [[? ->]|(? & ? & ? & _ & ->)];
      try discriminate.
    apply elem_of_union in Hin as [Hin|Hin];
      apply elem_of_singleton in Hin; congruence.
  - intros ->. rewrite !lookup_empty in *.
    destruct Ht as [[_ ->]|(? & ? & _)], Hc as [[_ ->]|(? & ? & ? & _)];
      done.
Qed.

(** The two views on the one input where they part: an empty object sent
    to an id that is not in the store.  [put] looks at the payload first,
    [patch] at the store first. *)
Lemma put_patch_differ :
  outcome (TaskResource.PUT 1 ∅ clock0 initial) = (inl InvalidInput, initial) ∧
  outcome (TaskResource.PATCH 1 ∅ clock0 initial) = (inl NotFound, initial) ∧
  outcome (TaskResource.PUT 1 ∅ clock0 initial) ≠
    outcome (TaskResource.PATCH 1 ∅ clock0 initial).
Proof. repeat split. discriminate. Qed.

(** C4 (amended): when the id is in the store, or the body is not the
    empty object, PUT and PATCH give the same result (the same record or
    the same error) and leave the same store. *)
Theorem put_patch_agree task_id body utcnow st :
  is_Some (_TASKS st !! task_id) ∨ body ≠ ∅ →
  TaskResource.PUT task_id body utcnow st =
  TaskResource.PATCH task_id body utcnow st.
Proof.
  intros Hcase.
  destruct (TaskUpdateSchema.load body) as [e|p] eqn:Hload.
  - by rewrite (PUT_rejected _ _ _ _ _ Hload), (PATCH_rejected _ _ _ _ _ Hload).
  - rewrite (PUT_accepted _ _ _ _ _ Hload), (PATCH_accepted _ _ _ _ _ Hload).
    destruct (not_payload p) eqn:Hp.
    + apply (update_load_empty _ _ Hload) in Hp.
      destruct Hcase as [[t ->]|Hne]; done.
    + by destruct (_TASKS st !! task_id).
Qed.

Lemma put_patch_agree_witness :
  (is_Some (_TASKS one_task !! 1) ∨ (∅ : gmap string json) ≠ ∅) ∧
  TaskResource.PUT 1 ∅ clock1 one_task = TaskResource.PATCH 1 ∅ clock1 one_task.
Proof.
  assert (H : is_Some (_TASKS one_task !! 1) ∨ (∅ : gmap string json) ≠ ∅).
  { left. exists buy_milk. reflexivity. }
  split; [exact H|].
  exact (put_patch_agree 1 ∅ clock1 one_task H).
Defined.

(** A blank title sent to an existing task: a recognized field is
    supplied, and the replace is refused all the same. *)
Lemma replace_blank_title_rejected :
  _TASKS one_task !! 1 = Some buy_milk ∧
  body_blank !! "title" = Some (JStr (str "   ")) ∧
  outcome (TaskResource.PUT 1 body_blank clock1 one_task) =
    (inl InvalidInput, one_task).
Proof. repeat split. Qed.

(** C5 (amended): on an existing task the replace signals InvalidInput
    exactly when the body supplies no recognized field or is refused by
    [TaskUpdateSchema] (an undeclared key, a null or ill-typed value, a
    title that is blank once stripped); a body that is accepted and
    supplies a recognized field succeeds, and sets [updated_at] to the
    current time. *)
Theorem replace_outcome task_id body utcnow st t :
  _TASKS st !! task_id = Some t →
  let supplied := is_Some (body !! "title") ∨ is_Some (body !! "completed") in
  ((∃ e, (TaskResource.PUT task_id body utcnow st).1 = inl e ∧
         kind e = InvalidInput)
   ↔ (¬ supplied ∨ ∃ e, TaskUpdateSchema.load body = inl e)) ∧
  (∀ p, supplied → TaskUpdateSchema.load body = inr p →
     ∃ t' st', TaskResource.PUT task_id body utcnow st = (inr t', st') ∧
               _TASKS st' !! task_id = Some t' ∧
               Task.updated_at t' = _now_iso utcnow).
Proof.
  intros Ht supplied.
  destruct (TaskUpdateSchema.load body) as [e|p] eqn:Hload.
  - rewrite (PUT_rejected _ _ _ _ _ Hload). split; [|done].
    split; [eauto|]. intros _. exists e.
    by rewrite (update_load_error _ _ Hload).
  - rewrite (PUT_accepted _ _ _ _ _ Hload), Ht.
    assert (not_payload p = true ↔ ¬ supplied) as Hp.
    { rewrite (update_load_empty _ _ Hload). unfold supplied. split.
      - intros ->. rewrite !lookup_empty. by intros [[]|[]].
      - intros Hns. apply map_eq. intros k. rewrite lookup_empty.
        destruct (body !! k) as [v|] eqn:Hk; [|done].
        apply update_load_ok in Hload as (Hdom & _).
        assert (k ∈ dom body) as Hin by (apply elem_of_dom; eauto).
        apply Hdom in Hin. destruct Hns.
        assert (k = "title" ∨ k = "completed")%string as [->| ->]
          by set_solver; eauto. }
    destruct (not_payload p) eqn:E; simpl.
    + split.
      * split; [intros _; left; by apply Hp|eauto].
      * intros p' Hs _. by apply Hp in Hs.
    + split.
      * split; [by intros (? & ? & _)|].
        intros [Hns|[? ?]]; [|done]. apply Hp in Hns. done.
      * intros p' _ [= <-]. eexists _, _. split; [done|].
        simpl. by rewrite lookup_insert_eq.
Qed.

Lemma replace_outcome_witness :
  _TASKS one_task !! 1 = Some buy_milk ∧
  ((∃ e, (TaskResource.PUT 1 body_completed clock1 one_task).1 = inl e ∧
         kind e = InvalidInput)
   ↔ (¬ (is_Some (body_completed !! "title") ∨
         is_Some (body_completed !! "completed")) ∨
      ∃ e, TaskUpdateSchema.load body_completed = inl e)) ∧
  (∀ p, is_Some (body_completed !! "title") ∨
        is_Some (body_completed !! "completed") →
     TaskUpdateSchema.load body_completed = inr p →
     ∃ t' st',
       TaskResource.PUT 1 body_completed clock1 one_task = (inr t', st') ∧
       _TASKS st' !! 1 = Some t' ∧
       Task.updated_at t' = _now_iso clock1).
Proof.
  split; [reflexivity|].
  exact (replace_outcome 1 body_completed clock1 one_task buy_milk eq_refl).
Defined.

(** C6: an update, by PUT or by PATCH, of an existing task with a body
    that carries no recognized field (the empty object in particular)
    fails with InvalidInput, and the store, hence the record and its
    [updated_at], is left as it was. *)
Theorem update_empty_body_rejected task_id body utcnow st t :
  _TASKS st !! task_id = Some t →
  body !! "title" = None →
  body !! "completed" = None →
  (∃ e, TaskResource.PUT task_id body utcnow st = (inl e, st) ∧
        kind e = InvalidInput) ∧
  (∃ e, TaskResource.PATCH task_id body utcnow st = (inl e, st) ∧
        kind e = InvalidInput).
Proof.
  intros Ht Hnt Hnc.
  destruct (TaskUpdateSchema.load body) as [e|p] eqn:Hload.
  - rewrite (PUT_rejected _ _ _ _ _ Hload), (PATCH_rejected _ _ _ _ _ Hload).
    rewrite (update_load_error _ _ Hload).
    split; by exists ValidationError.
  - rewrite (PUT_accepted _ _ _ _ _ Hload), (PATCH_accepted _ _ _ _ _ Hload).
    rewrite Ht.
    apply update_load_ok in Hload as (_ & Hpt & Hpc).
    unfold not_payload.
    destruct Hpt as [[_ ->]|(? & ? & _)]; [|congruence].
    destruct Hpc as [[_ ->]|(? & ? & ? & _)]; [|congruence].
    split; by exists abort_400.
Qed.

Lemma update_empty_body_rejected_witness :
  _TASKS one_task !! 1 = Some buy_milk ∧
  (∅ : gmap string json) !! "title" = None ∧
  (∅ : gmap string json) !! "completed" = None ∧
  (∃ e, TaskResource.PUT 1 ∅ clock1 one_task = (inl e, one_task) ∧
        kind e = InvalidInput) ∧
  (∃ e, TaskResource.PATCH 1 ∅ clock1 one_task = (inl e, one_task) ∧
        kind e = InvalidInput).
Proof.
  repeat (split; [reflexivity|]).
  exact (update_empty_body_rejected 1 ∅ clock1 one_task buy_milk
           eq_refl eq_refl eq_refl).
Defined.

(** ** Deletion *)

(** C8: once a delete of an id has succeeded, a get of that id signals
    NotFound, and so does a second delete. *)
Theorem delete_then_not_found task_id st st' :
  TaskResource.DELETE task_id st = (inr tt, st') →
  (∃ e, TaskResource.GET task_id st' = (inl e, st') ∧ kind e = NotFound) ∧
  (∃ e, TaskResource.DELETE task_id st' = (inl e, st') ∧ kind e = NotFound).
Proof.
  rewrite DELETE_run.
  destruct (_TASKS st !! task_id); [|discriminate].
  intros [= <-].
  rewrite GET_run, DELETE_run. simpl.
  rewrite lookup_delete_eq.
  split; by exists abort_404.
Qed.

Lemma delete_then_not_found_witness :
  TaskResource.DELETE 1 one_task = (inr tt, with_tasks one_task ∅) ∧
  (∃ e, TaskResource.GET 1 (with_tasks one_task ∅) =
          (inl e, with_tasks one_task ∅) ∧ kind e = NotFound) ∧
  (∃ e, TaskResource.DELETE 1 (with_tasks one_task ∅) =
          (inl e, with_tasks one_task ∅) ∧ kind e = NotFound).
Proof.
  split; [reflexivity|].
  exact (delete_then_not_found 1 one_task (with_tasks one_task ∅) eq_refl).
Defined.

(** ** Titles *)

Lemma strip_trimmed s : trimmed s (strip s).
Proof.
  destruct (lstrip_decompose s) as (l & Hl & Hwl).
  destruct (rstrip_decompose (lstrip s)) as (r & Hr & Hwr).
  exists l, r. repeat split; try done.
  - unfold strip. by rewrite <- Hr.
  - apply strip_head.
  - apply strip_last.
Qed.

(** C10: the title that is stored is the title that was sent with the
    whitespace at its two ends removed.  For a body whose title is the
    string [s]: a create the schema accepts succeeds, and so does, on an
    existing task, an update by PUT or by PATCH the schema accepts; the
    record they return, which is the record a get then fetches, has the
    title [strip s], which is [s] without the whitespace before and after
    it.  And whenever a create, a PUT or a PATCH with this body has
    succeeded, the record it returns and leaves in the store has that
    title. *)
Theorem stored_title_is_stripped body s utcnow st :
  body !! "title" = Some (JStr s) →
  (∀ p, TaskCreateSchema.load body = inr p →
     ∃ t st',
       TasksCollection.POST body utcnow st = (inr t, st') ∧
       TaskResource.GET (Task.id t) st' = (inr t, st') ∧
       Task.title t = strip s ∧ trimmed s (Task.title t)) ∧
  (∀ p task_id t0,
     TaskUpdateSchema.load body = inr p →
     _TASKS st !! task_id = Some t0 →
     ∃ t st',
       TaskResource.PUT task_id body utcnow st = (inr t, st') ∧
       TaskResource.PATCH task_id body utcnow st = (inr t, st') ∧
       TaskResource.GET task_id st' = (inr t, st') ∧
       Task.title t = strip s ∧ trimmed s (Task.title t)) ∧
  (∀ t st', TasksCollection.POST body utcnow st = (inr t, st') →
     Task.title t = strip s ∧ trimmed s (Task.title t) ∧
     _TASKS st' !! Task.id t = Some t) ∧
  (∀ task_id t st', TaskResource.PUT task_id body utcnow st = (inr t, st') →
     Task.title t = strip s ∧ trimmed s (Task.title t) ∧
     _TASKS st' !! task_id = Some t) ∧
  (∀ task_id t st', TaskResource.PATCH task_id body utcnow st = (inr t, st') →
     Task.title t = strip s ∧ trimmed s (Task.title t) ∧
     _TASKS st' !! task_id = Some t).
Proof.
  intros Hs.
  assert (∀ p, TaskUpdateSchema.load body = inr p →
               not_payload p = false ∧ Payload.title p = Some (Some s))
    as Hupdate.
  { intros p (_ & [[? _]|(s' & Hs' & _ & Hp)] & _)%update_load_ok;
      [congruence|].
    assert (s' = s) as -> by congruence.
    split; [|done]. unfold not_payload. by rewrite Hp. }
  split; [|split; [|split; [|split]]].
  - intros p Hload.
    destruct (create_load_ok _ _ Hload) as (s' & b & Hs' & _ & ->).
    assert (s' = s) as -> by congruence.
    eexists _, _. split; [by apply POST_accepted|].
    rewrite GET_run. simpl. rewrite lookup_insert_eq.
    split; [done|]. split; [done|apply strip_trimmed].
  - intros p task_id t0 Hload Ht0.
    destruct (Hupdate p Hload) as [Hp Htitle].
    rewrite (PUT_accepted _ _ _ _ _ Hload), (PATCH_accepted _ _ _ _ _ Hload).
    rewrite Hp, Ht0. eexists _, _. split; [done|]. split; [done|].
    rewrite GET_run. simpl. rewrite lookup_insert_eq, Htitle.
    split; [done|]. split; [done|apply strip_trimmed].
  - intros t st'.
    destruct (TaskCreateSchema.load body) as [e|p] eqn:Hload.
    { by rewrite (POST_rejected _ _ _ _ Hload). }
    destruct (create_load_ok _ _ Hload) as (s' & b & Hs' & _ & ->).
    assert (s' = s) as -> by congruence.
    rewrite (POST_accepted _ _ _ _ _ Hload). intros [= <- <-]. simpl.
    rewrite lookup_insert_eq. split; [done|].
    split; [apply strip_trimmed|done].
  - intros task_id t st'.
    destruct (TaskUpdateSchema.load body) as [e|p] eqn:Hload.
    { by rewrite (PUT_rejected _ _ _ _ _ Hload). }
    rewrite (PUT_accepted _ _ _ _ _ Hload).
    destruct (Hupdate p eq_refl) as [-> Htitle].
    destruct (_TASKS st !! task_id); [|done].
    intros [= <- <-]. simpl. rewrite Htitle, lookup_insert_eq.
    split; [done|]. split; [apply strip_trimmed|done].
  - intros task_id t st'.
    destruct (TaskUpdateSchema.load body) as [e|p] eqn:Hload.
    { by rewrite (PATCH_rejected _ _ _ _ _ Hload). }
    rewrite (PATCH_accepted _ _ _ _ _ Hload).
    destruct (Hupdate p eq_refl) as [-> Htitle].
    destruct (_TASKS st !! task_id); [|done].
    intros [= <- <-]. simpl. rewrite Htitle, lookup_insert_eq.
    split; [done|]. split; [apply strip_trimmed|done].
Qed.

Lemma stored_title_is_stripped_witness :
  body_buy_milk !! "title" = Some (JStr (str "  Buy milk  ")) ∧
  TaskCreateSchema.load body_buy_milk =
    inr {| Payload.title := Some (Some (str "  Buy milk  "));
           Payload.completed := Some (Some false) |} ∧
  (∃ t st',
     TasksCollection.POST body_buy_milk clock0 initial = (inr t, st') ∧
     TaskResource.GET (Task.id t) st' = (inr t, st') ∧
     Task.title t = str "Buy milk" ∧
     Task.title t ≠ str "  Buy milk  ") ∧
  TaskUpdateSchema.load body_buy_milk =
    inr {| Payload.title := Some (Some (str "  Buy milk  "));
           Payload.completed := None |} ∧
  _TASKS two_tasks !! 2 = Some walk_dog ∧
  (∃ t st',
     TaskResource.PUT 2 body_buy_milk clock2 two_tasks = (inr t, st') ∧
     TaskResource.PATCH 2 body_buy_milk clock2 two_tasks = (inr t, st') ∧
     TaskResource.GET 2 st' = (inr t, st') ∧
     Task.title t = str "Buy milk" ∧
     Task.title t ≠ str "  Buy milk  ").
Proof.
  split; [reflexivity|]. split; [reflexivity|].
  destruct (stored_title_is_stripped body_buy_milk (str "  Buy milk  ")
              clock0 initial eq_refl) as (Hcreate & _).
  destruct (Hcreate _ eq_refl) as (t & st' & Hpost & Hget & Htitle & _).
  split.
  { exists t, st'. repeat (split; [assumption|]).
    rewrite Htitle. discriminate. }
  split; [reflexivity|]. split; [reflexivity|].
  destruct (stored_title_is_stripped body_buy_milk (str "  Buy milk  ")
              clock2 two_tasks eq_refl) as (_ & Hupdate & _).
  destruct (Hupdate _ 2 walk_dog eq_refl eq_refl)
    as (u & st'' & Hput & Hpatch & Hget' & Htitle' & _).
  exists u, st''. repeat (split; [assumption|]).
  rewrite Htitle'. discriminate.
Defined.

(** ** Invariants of the store *)

Lemma title_ok_strip s : strip s ≠ [] → title_ok (strip s).
Proof. intros H. split; [done|by apply strip_not_whitespace_only]. Qed.

Lemma apply_update_title_ok body p now t :
  TaskUpdateSchema.load body = inr p →
  title_ok (Task.title t) →
  title_ok (Task.title (apply_update p now t)).
Proof.
  intros Hload Ht.
  apply update_load_ok in Hload as (_ & [[_ Hp]|(s & _ & Hs & Hp)] & _);
    simpl; rewrite Hp; [done|by apply title_ok_strip].
Qed.

(** C9: every operation (list, create, get, replace, partial update,
    delete) preserves the invariant that no task in the store has a title
    that is empty or made of whitespace only. *)
Theorem titles_ok_preserved r utcnow st :
  titles_ok st → titles_ok (dispatch r utcnow st).2.
Proof.
  unfold titles_ok. intros Hinv.
  destruct r as [|body|task_id|task_id body|task_id body|task_id];
    unfold dispatch, respond.
  - done.
  - destruct (TaskCreateSchema.load body) as [e|p] eqn:Hload.
    { by rewrite (POST_rejected _ _ _ _ Hload). }
    destruct (create_load_ok _ _ Hload) as (s & b & _ & Hs & ->).
    rewrite (POST_accepted _ _ _ _ _ Hload). simpl.
    apply map_Forall_insert_2; [by apply title_ok_strip|done].
  - rewrite GET_run. by destruct (_TASKS st !! task_id).
  - destruct (TaskUpdateSchema.load body) as [e|p] eqn:Hload.
    { by rewrite (PUT_rejected _ _ _ _ _ Hload). }
    rewrite (PUT_accepted _ _ _ _ _ Hload).
    destruct (not_payload p); [done|].
    destruct (_TASKS st !! task_id) as [t|] eqn:Ht; [|done]. simpl.
    apply map_Forall_insert_2; [|done].
    eapply apply_update_title_ok; [done|]. by apply (Hinv task_id).
  - destruct (TaskUpdateSchema.load body) as [e|p] eqn:Hload.
    { by rewrite (PATCH_rejected _ _ _ _ _ Hload). }
    rewrite (PATCH_accepted _ _ _ _ _ Hload).
    destruct (_TASKS st !! task_id) as [t|] eqn:Ht; [|done].
    destruct (not_payload p); [done|]. simpl.
    apply map_Forall_insert_2; [|done].
    eapply apply_update_title_ok; [done|]. by apply (Hinv task_id).
  - rewrite DELETE_run.
    destruct (_TASKS st !! task_id); [|done]. simpl.
    by apply map_Forall_delete.
Qed.

Lemma titles_ok_preserved_witness :
  titles_ok one_task ∧
  titles_ok (dispatch (ReplaceTask 1 body_buy_milk) clock1 one_task).2.
Proof.
  assert (H : titles_ok one_task).
  { apply map_Forall_insert_2; [|apply map_Forall_empty].
    split; [discriminate|reflexivity]. }
  split; [exact H|].
  exact (titles_ok_preserved (ReplaceTask 1 body_buy_milk) clock1 one_task H).
Defined.

(** ** Identifiers *)

(** A request leaves [_NEXT_ID] alone, except a successful creation, which
    hands out its value and moves it up by one. *)
Lemma dispatch_next_id r utcnow st :
  match created_id (dispatch r utcnow st).1 with
  | Some i => i = _NEXT_ID st ∧ _NEXT_ID (dispatch r utcnow st).2 = _NEXT_ID st + 1
  | None => _NEXT_ID (dispatch r utcnow st).2 = _NEXT_ID st
  end.
Proof.
  destruct r as [|body|task_id|task_id body|task_id body|task_id];
    unfold dispatch, respond.
  - done.
  - destruct (TaskCreateSchema.load body) as [e|p] eqn:Hload.
    { by rewrite (POST_rejected _ _ _ _ Hload). }
    destruct (create_load_ok _ _ Hload) as (s & b & _ & _ & ->).
    by rewrite (POST_accepted _ _ _ _ _ Hload).
  - rewrite GET_run. by destruct (_TASKS st !! task_id).
  - destruct (TaskUpdateSchema.load body) as [e|p] eqn:Hload.
    { by rewrite (PUT_rejected _ _ _ _ _ Hload). }
    rewrite (PUT_accepted _ _ _ _ _ Hload).
    destruct (not_payload p); [done|].
    by destruct (_TASKS st !! task_id).
  - destruct (TaskUpdateSchema.load body) as [e|p] eqn:Hload.
    { by rewrite (PATCH_rejected _ _ _ _ _ Hload). }
    rewrite (PATCH_accepted _ _ _ _ _ Hload).
    destruct (_TASKS st !! task_id); [|done].
    by destruct (not_payload p).
  - rewrite DELETE_run. by destruct (_TASKS st !! task_id).
Qed.

Lemma serve_cons r utcnow reqs st :
  serve ((r, utcnow) :: reqs) st =
    ((dispatch r utcnow st).1 :: (serve reqs (dispatch r utcnow st).2).1,
     (serve reqs (dispatch r utcnow st).2).2).
Proof.
  simpl. destruct (dispatch r utcnow st) as [resp st']. simpl.
  by destruct (serve reqs st').
Qed.

Lemma serve_created_ids reqs :
  ∀ st, Forall (λ i, _NEXT_ID st ≤ i) (created_ids (serve reqs st).1) ∧
        StronglySorted Z.lt (created_ids (serve reqs st).1).
Proof.
  induction reqs as [|[r utcnow] reqs IH]; intros st.
  - split; constructor.
  - rewrite serve_cons. unfold created_ids. simpl.
    pose proof (dispatch_next_id r utcnow st) as Hstep.
    destruct (IH (dispatch r utcnow st).2) as [Hge Hsorted].
    destruct (created_id (dispatch r utcnow st).1) as [i|].
    + destruct Hstep as [-> Hnext]. rewrite Hnext in Hge.
      split.
      * constructor; [lia|]. eapply Forall_impl; [exact Hge|].
        simpl. intros; lia.
      * constructor; [done|]. eapply Forall_impl; [exact Hge|].
        simpl. intros; lia.
    + rewrite Hstep in Hge. done.
Qed.

Lemma StronglySorted_lt_NoDup (l : list Z) : StronglySorted Z.lt l → NoDup l.
Proof.
  induction 1 as [|a l _ IH Hall]; constructor; [|done].
  intros Hin. rewrite Forall_forall in Hall.
  apply Hall in Hin. lia.
Qed.

(** A body that passed its schema never makes a handler fail with an
    unhandled exception. *)
Lemma dispatch_handled r utcnow st : (dispatch r utcnow st).1 ≠ Error Unhandled.
Proof.
  destruct r as [|body|task_id|task_id body|task_id body|task_id];
    unfold dispatch, respond.
  - done.
  - destruct (TaskCreateSchema.load body) as [e|p] eqn:Hload.
    { rewrite (POST_rejected _ _ _ _ Hload).
      by rewrite (create_load_error _ _ Hload). }
    destruct (create_load_ok _ _ Hload) as (s & b & _ & _ & ->).
    by rewrite (POST_accepted _ _ _ _ _ Hload).
  - rewrite GET_run. by destruct (_TASKS st !! task_id).
  - destruct (TaskUpdateSchema.load body) as [e|p] eqn:Hload.
    { rewrite (PUT_rejected _ _ _ _ _ Hload).
      by rewrite (update_load_error _ _ Hload). }
    rewrite (PUT_accepted _ _ _ _ _ Hload).
    destruct (not_payload p); [done|].
    by destruct (_TASKS st !! task_id).
  - destruct (TaskUpdateSchema.load body) as [e|p] eqn:Hload.
    { rewrite (PATCH_rejected _ _ _ _ _ Hload).
      by rewrite (update_load_error _ _ Hload). }
    rewrite (PATCH_accepted _ _ _ _ _ Hload).
    destruct (_TASKS st !! task_id); [|done].
    by destruct (not_payload p).
  - rewrite DELETE_run. by destruct (_TASKS st !! task_id).
Qed.

(** The id of a record is its key and lies below the counter; a request
    keeps it so.  In particular a creation never files its record over an
    existing one. *)
Lemma dispatch_ids_ok r utcnow st : ids_ok st → ids_ok (dispatch r utcnow st).2.
Proof.
  unfold ids_ok. intros [Hnext Hinv].
  destruct r as [|body|task_id|task_id body|task_id body|task_id];
    unfold dispatch, respond.
  - done.
  - destruct (TaskCreateSchema.load body) as [e|p] eqn:Hload.
    { by rewrite (POST_rejected _ _ _ _ Hload). }
    destruct (create_load_ok _ _ Hload) as (s & b & _ & _ & ->).
    rewrite (POST_accepted _ _ _ _ _ Hload). simpl.
    split; [lia|]. apply map_Forall_insert_2.
    + simpl. lia.
    + eapply map_Forall_impl; [exact Hinv|]. simpl. intros; lia.
  - rewrite GET_run. by destruct (_TASKS st !! task_id).
  - destruct (TaskUpdateSchema.load body) as [e|p] eqn:Hload.
    { by rewrite (PUT_rejected _ _ _ _ _ Hload). }
    rewrite (PUT_accepted _ _ _ _ _ Hload).
    destruct (not_payload p); [done|].
    destruct (_TASKS st !! task_id) as [t|] eqn:Ht; [|done]. simpl.
    split; [done|].
    apply map_Forall_insert_2; [|done]. simpl. by apply (Hinv task_id).
  - destruct (TaskUpdateSchema.load body) as [e|p] eqn:Hload.
    { by rewrite (PATCH_rejected _ _ _ _ _ Hload). }
    rewrite (PATCH_accepted _ _ _ _ _ Hload).
    destruct (_TASKS st !! task_id) as [t|] eqn:Ht; [|done].
    destruct (not_payload p); [done|]. simpl.
    split; [done|].
    apply map_Forall_insert_2; [|done]. simpl. by apply (Hinv task_id).
  - rewrite DELETE_run.
    destruct (_TASKS st !! task_id); [|done]. simpl.
    split; [done|]. by apply map_Forall_delete.
Qed.

Lemma serve_ids_ok reqs : ∀ st, ids_ok st → ids_ok (serve reqs st).2.
Proof.
  induction reqs as [|[r utcnow] reqs IH]; intros st Hinv; [done|].
  rewrite serve_cons. simpl. by apply IH, dispatch_ids_ok.
Qed.

Lemma ids_ok_initial : ids_ok initial.
Proof. split; [done|apply map_Forall_empty]. Qed.

(** The id a creation is about to hand out is not in use. *)
Lemma next_id_fresh st : ids_ok st → _TASKS st !! _NEXT_ID st = None.
Proof.
  intros [_ Hinv].
  destruct (_TASKS st !! _NEXT_ID st) as [t|] eqn:E; [|done].
  destruct (Hinv _ _ E) as [_ ?]. lia.
Qed.

(** C2: along any run of the process, whatever requests it serves, the ids
    handed out by the successful creations are strictly increasing: each
    is greater than every id handed out before it.  Hence no id is handed
    out twice, also not after the task that held it was deleted. *)
Theorem created_ids_increasing reqs :
  StronglySorted Z.lt (created_ids (serve reqs initial).1) ∧
  NoDup (created_ids (serve reqs initial).1).
Proof.
  destruct (serve_created_ids reqs initial) as [_ Hsorted].
  split; [done|by apply StronglySorted_lt_NoDup].
Qed.

Example create_delete_create :
  created_ids
    (serve [(CreateTask body_buy_milk, clock0); (DeleteTask 1, clock0);
            (CreateTask body_buy_milk, clock1); (GetTask 1, clock1)]
       initial).1 = [1; 2].
Proof. reflexivity. Qed.

(** ** Timestamps *)

Example parse_clock0 : parse_timestamp (_now_iso clock0) = Some clock0.
Proof. reflexivity. Qed.

Example parse_clock1 : parse_timestamp (_now_iso clock1) = Some clock1.
Proof. reflexivity. Qed.

Example clock0_before_clock1 :
  timestamp_le (_now_iso clock0) (_now_iso clock1) = true.
Proof. reflexivity. Qed.

(** The order of the instants is not the order of the strings: a reading
    with no microseconds is written without the fraction, and [Z] comes
    after [.]. *)
Example clock0_after_clock1_as_str :
  _now_iso clock0 = str "2024-05-17T09:30:00Z" ∧
  _now_iso clock1 = str "2024-05-17T09:30:00.250000Z" ∧
  str_le (_now_iso clock0) (_now_iso clock1) = false.
Proof. repeat split. Qed.

Lemma undigit_digit n : undigit (digit n) = Some (n mod 10).
Proof.
  unfold undigit, digit.
  pose proof (Z.mod_pos_bound n 10 ltac:(lia)) as Hn.
  replace ((48 <=? Z.to_N (48 + n mod 10))%N &&
           (Z.to_N (48 + n mod 10) <=? 57)%N) with true.
  - f_equal. lia.
  - symmetry. apply andb_true_iff. split; apply N.leb_le; lia.
Qed.

Lemma digits_value_2 n : 0 ≤ n < 100 → 10 * (10 * 0 + n / 10 mod 10) + n mod 10 = n.
Proof. intros H. Z.div_mod_to_equations. lia. Qed.

Lemma digits_value_4 n :
  0 ≤ n < 10000 →
  10 * (10 * (10 * (10 * 0 + n / 1000 mod 10) + n / 100 mod 10)
        + n / 10 mod 10) + n mod 10 = n.
Proof. intros H. Z.div_mod_to_equations. lia. Qed.

Lemma digits_value_6 n :
  0 ≤ n < 1000000 →
  10 * (10 * (10 * (10 * (10 * (10 * 0 + n / 100000 mod 10)
                          + n / 10000 mod 10) + n / 1000 mod 10)
              + n / 100 mod 10) + n / 10 mod 10) + n mod 10 = n.
Proof. intros H. Z.div_mod_to_equations. lia. Qed.

Lemma read_fmt2 n rest : 0 ≤ n < 100 → read 2 (fmt2 n ++ rest) = Some (n, rest).
Proof.
  intros H. unfold read, fmt2. simpl.
  rewrite !undigit_digit. simpl. by rewrite digits_value_2.
Qed.

Lemma read_fmt4 n rest :
  0 ≤ n < 10000 → read 4 (fmt4 n ++ rest) = Some (n, rest).
Proof.
  intros H. unfold read, fmt4. simpl.
  rewrite !undigit_digit. simpl. by rewrite digits_value_4.
Qed.

Lemma read_fmt6 n rest :
  0 ≤ n < 1000000 → read 6 (fmt6 n ++ rest) = Some (n, rest).
Proof.
  intros H. unfold read, fmt6. simpl.
  rewrite !undigit_digit. simpl. by rewrite digits_value_6.
Qed.

Lemma expect_str a rest :
  expect (String a EmptyString) (str (String a EmptyString) ++ rest) = Some rest.
Proof. unfold expect, str. simpl. by rewrite bool_decide_eq_true_2. Qed.

(** A timestamp written by [_now_iso] reads back as the clock reading it
    was written from. *)
Lemma parse_now_iso d :
  valid_datetime d = true → parse_timestamp (_now_iso d) = Some d.
Proof.
  destruct d as [y mo dd h mi s us].
  unfold valid_datetime.
  cbn [year month day hour minute second microsecond].
  rewrite !andb_true_iff, !Z.leb_le.
  intros H.
  unfold parse_timestamp, _now_iso, isoformat.
  cbn [year month day hour minute second microsecond].
  rewrite <- !app_assoc.
  rewrite read_fmt4 by lia. cbn [mbind option_bind]. rewrite expect_str.
  cbn [mbind option_bind].
  do 4 (rewrite read_fmt2 by lia; cbn [mbind option_bind];
        rewrite expect_str; cbn [mbind option_bind]).
  rewrite read_fmt2 by lia. cbn [mbind option_bind].
  destruct (us =? 0) eqn:Hus.
  - apply Z.eqb_eq in Hus as ->. reflexivity.
  - rewrite <- app_assoc, expect_str.
    rewrite read_fmt6 by lia. cbn [mbind option_bind].
    rewrite <- (app_nil_r (str "Z")), expect_str. reflexivity.
Qed.

Lemma lex_le_refl a : lex_le a a = true.
Proof.
  induction a as [|x a IH]; simpl; [done|].
  rewrite Z.eqb_refl, IH. apply orb_true_r.
Qed.

Lemma lex_le_trans a :
  ∀ b c, length a = length b → length b = length c →
         lex_le a b = true → lex_le b c = true → lex_le a c = true.
Proof.
  induction a as [|x a IH]; intros [|y b] [|z c]; simpl; try done.
  intros [= Hab] [= Hbc].
  rewrite !orb_true_iff, !andb_true_iff, !Z.ltb_lt, !Z.eqb_eq.
  intros [Hxy|[-> Hle1]] [Hyz|[-> Hle2]]; try (left; lia).
  right. split; [done|]. by apply (IH b c).
Qed.

Lemma datetime_le_refl d : datetime_le d d = true.
Proof. apply lex_le_refl. Qed.

Lemma datetime_le_trans a b c :
  datetime_le a b = true → datetime_le b c = true → datetime_le a c = true.
Proof. by apply lex_le_trans. Qed.

(** On timestamps written by [_now_iso], the order of the strings is the
    order of the clock readings. *)
Lemma timestamp_le_now_iso a b :
  valid_datetime a = true → valid_datetime b = true →
  timestamp_le (_now_iso a) (_now_iso b) = datetime_le a b.
Proof.
  intros Ha Hb. unfold timestamp_le.
  by rewrite (parse_now_iso a Ha), (parse_now_iso b Hb).
Qed.

Lemma str_le_cmp a : ∀ b,
  str_le a b = match str_cmp a b with Gt => false | _ => true end.
Proof.
  induction a as [|x a IH]; intros [|y b]; simpl; try done.
  rewrite IH. destruct (N.compare_spec x y) as [->|Hlt|Hgt].
  - by rewrite N.ltb_irrefl, N.eqb_refl.
  - by apply N.ltb_lt in Hlt as ->.
  - assert ((x <? y)%N = false) as -> by (apply N.ltb_ge; lia).
    assert ((x =? y)%N = false) as -> by (apply N.eqb_neq; lia). done.
Qed.

Lemma str_cmp_refl a : str_cmp a a = Eq.
Proof. induction a as [|x a IH]; simpl; [done|]. by rewrite N.compare_refl. Qed.

Lemma str_cmp_app u1 : ∀ u2 r1 r2,
  length u1 = length u2 →
  str_cmp (u1 ++ r1) (u2 ++ r2) =
    match str_cmp u1 u2 with Eq => str_cmp r1 r2 | c => c end.
Proof.
  induction u1 as [|x u1 IH]; intros [|y u2] r1 r2; simpl; try done.
  intros [= Hlen]. rewrite (IH _ _ _ Hlen). by destruct (x ?= y)%N.
Qed.

Lemma lex_le_cmp x y a b :
  lex_le (x :: a) (y :: b) =
    match x ?= y with Lt => true | Eq => lex_le a b | Gt => false end.
Proof.
  simpl. destruct (Z.compare_spec x y) as [->|Hlt|Hgt].
  - by rewrite Z.ltb_irrefl, Z.eqb_refl.
  - by apply Z.ltb_lt in Hlt as ->.
  - assert ((x <? y) = false) as -> by (apply Z.ltb_ge; lia).
    assert ((x =? y) = false) as -> by (apply Z.eqb_neq; lia). done.
Qed.

Lemma digit_cmp x y : (digit x ?= digit y)%N = (x mod 10 ?= y mod 10).
Proof.
  unfold digit.
  pose proof (Z.mod_pos_bound x 10 ltac:(lia)).
  pose proof (Z.mod_pos_bound y 10 ltac:(lia)).
  rewrite <- N2Z.inj_compare, !Z2N.id by lia.
  apply Z.add_compare_mono_l.
Qed.

Ltac compare_digits :=
  repeat match goal with
         | |- context [?a ?= ?b] =>
             destruct (Z.compare_spec a b)
         end;
  try reflexivity; exfalso; Z.div_mod_to_equations; lia.

Lemma fmt2_cmp a b :
  0 ≤ a < 100 → 0 ≤ b < 100 → str_cmp (fmt2 a) (fmt2 b) = (a ?= b).
Proof.
  intros Ha Hb. unfold fmt2. simpl. rewrite !digit_cmp. compare_digits.
Qed.

Lemma fmt4_cmp a b :
  0 ≤ a < 10000 → 0 ≤ b < 10000 → str_cmp (fmt4 a) (fmt4 b) = (a ?= b).
Proof.
  intros Ha Hb. unfold fmt4. simpl. rewrite !digit_cmp. compare_digits.
Qed.

Lemma fmt6_cmp a b :
  0 ≤ a < 1000000 → 0 ≤ b < 1000000 → str_cmp (fmt6 a) (fmt6 b) = (a ?= b).
Proof.
  intros Ha Hb. unfold fmt6. simpl. rewrite !digit_cmp. compare_digits.
Qed.

(** On timestamps written for two readings that both have microseconds, or
    both have none, the order of the strings is the order of the
    readings. *)
Lemma str_le_now_iso a b :
  valid_datetime a = true → valid_datetime b = true →
  (microsecond a =? 0) = (microsecond b =? 0) →
  str_le (_now_iso a) (_now_iso b) = datetime_le a b.
Proof.
  destruct a as [y1 mo1 d1 h1 mi1 s1 us1], b as [y2 mo2 d2 h2 mi2 s2 us2].
  unfold valid_datetime.
  cbn [year month day hour minute second microsecond].
  rewrite !andb_true_iff, !Z.leb_le.
  intros Ha Hb Hus.
  unfold datetime_le, fields, _now_iso, isoformat.
  cbn [year month day hour minute second microsecond].
  rewrite str_le_cmp, !lex_le_cmp. rewrite <- !app_assoc.
  rewrite (str_cmp_app (fmt4 y1)), fmt4_cmp by (done || lia).
  rewrite (str_cmp_app (str "-")), str_cmp_refl by done.
  rewrite (str_cmp_app (fmt2 mo1)), fmt2_cmp by (done || lia).
  rewrite (str_cmp_app (str "-")), str_cmp_refl by done.
  rewrite (str_cmp_app (fmt2 d1)), fmt2_cmp by (done || lia).
  rewrite (str_cmp_app (str "T")), str_cmp_refl by done.
  rewrite (str_cmp_app (fmt2 h1)), fmt2_cmp by (done || lia).
  rewrite (str_cmp_app (str ":")), str_cmp_refl by done.
  rewrite (str_cmp_app (fmt2 mi1)), fmt2_cmp by (done || lia).
  rewrite (str_cmp_app (str ":")), str_cmp_refl by done.
  rewrite (str_cmp_app (fmt2 s1)), fmt2_cmp by (done || lia).
  assert (str_cmp
            ((if us1 =? 0 then [] else str "." ++ fmt6 us1) ++ str "Z")
            ((if us2 =? 0 then [] else str "." ++ fmt6 us2) ++ str "Z")
          = (us1 ?= us2)) as ->.
  { rewrite <- Hus. destruct (us1 =? 0) eqn:E1.
    - symmetry in Hus. apply Z.eqb_eq in E1 as ->, Hus as ->. done.
    - rewrite <- !app_assoc.
      rewrite (str_cmp_app (str ".")), str_cmp_refl by done.
      rewrite (str_cmp_app (fmt6 us1)), fmt6_cmp by (done || lia).
      rewrite str_cmp_refl. by destruct (us1 ?= us2). }
  simpl.
  by destruct (y1 ?= y2), (mo1 ?= mo2), (d1 ?= d2), (h1 ?= h2),
    (mi1 ?= mi2), (s1 ?= s2), (us1 ?= us2).
Qed.

(** A timestamp has 20 characters, or 27 when it carries microseconds. *)
Lemma length_now_iso d :
  length (_now_iso d) = if microsecond d =? 0 then 20%nat else 27%nat.
Proof.
  unfold _now_iso, isoformat. by destruct (microsecond d =? 0).
Qed.

Lemma stamped_later d d' st :
  datetime_le d d' = true → stamped d st → stamped d' st.
Proof.
  intros Hle Hst. unfold stamped in *.
  eapply map_Forall_impl; [exact Hst|].
  intros _ t (d0 & Hv & Hd0 & Ht). exists d0.
  eauto using datetime_le_trans.
Qed.

Lemma stamped_insert d st task_id t :
  valid_datetime d = true → Task.updated_at t = _now_iso d →
  stamped d st → stamped d (with_tasks st (<[task_id := t]> (_TASKS st))).
Proof.
  intros Hv Ht Hst. unfold stamped. simpl.
  apply map_Forall_insert_2; [|done].
  exists d. eauto using datetime_le_refl.
Qed.

(** A request served at a reading that is not earlier than the stamps of
    the store leaves all stamps at or before that reading. *)
Lemma dispatch_stamped r utcnow d st :
  valid_datetime utcnow = true → datetime_le d utcnow = true →
  stamped d st → stamped utcnow (dispatch r utcnow st).2.
Proof.
  intros Hv Hle Hst%(stamped_later _ _ _ Hle).
  destruct r as [|body|task_id|task_id body|task_id body|task_id];
    unfold dispatch, respond.
  - done.
  - destruct (TaskCreateSchema.load body) as [e|p] eqn:Hload.
    { by rewrite (POST_rejected _ _ _ _ Hload). }
    destruct (create_load_ok _ _ Hload) as (s & b & _ & _ & ->).
    rewrite (POST_accepted _ _ _ _ _ Hload). simpl.
    apply map_Forall_insert_2; [|done].
    exists utcnow. eauto using datetime_le_refl.
  - rewrite GET_run. by destruct (_TASKS st !! task_id).
  - destruct (TaskUpdateSchema.load body) as [e|p] eqn:Hload.
    { by rewrite (PUT_rejected _ _ _ _ _ Hload). }
    rewrite (PUT_accepted _ _ _ _ _ Hload).
    destruct (not_payload p); [done|].
    destruct (_TASKS st !! task_id) as [t|]; [|done].
    by apply stamped_insert.
  - destruct (TaskUpdateSchema.load body) as [e|p] eqn:Hload.
    { by rewrite (PATCH_rejected _ _ _ _ _ Hload). }
    rewrite (PATCH_accepted _ _ _ _ _ Hload).
    destruct (_TASKS st !! task_id) as [t|]; [|done].
    destruct (not_payload p); [done|].
    by apply stamped_insert.
  - rewrite DELETE_run.
    destruct (_TASKS st !! task_id); [|done].
    by apply map_Forall_delete.
Qed.

Lemma serve_stamped reqs :
  ∀ st d utcnow,
    forallb valid_datetime reqs.*2 = true →
    nondecreasing (d :: reqs.*2 ++ [utcnow]) = true →
    stamped d st → stamped utcnow (serve reqs st).2.
Proof.
  induction reqs as [|[r u] reqs IH]; intros st d utcnow Hv Hmono Hst.
  - simpl in *. apply andb_true_iff in Hmono as [Hle _].
    by apply (stamped_later d).
  - rewrite serve_cons. simpl.
    rewrite fmap_cons in Hv, Hmono. simpl in Hv, Hmono.
    apply andb_true_iff in Hv as [Hu Hv].
    apply andb_true_iff in Hmono as [Hle Hmono].
    apply (IH _ u); [done|done|]. by apply (dispatch_stamped _ _ d).
Qed.

(** Along a run from the initial store on a clock that never goes back,
    all stamps are at or before any later reading. *)
Lemma reachable_stamped reqs utcnow :
  forallb valid_datetime (reqs.*2 ++ [utcnow]) = true →
  nondecreasing (reqs.*2 ++ [utcnow]) = true →
  stamped utcnow (serve reqs initial).2.
Proof.
  intros Hv Hmono. rewrite forallb_app in Hv.
  apply andb_true_iff in Hv as [Hv _].
  destruct reqs as [|[r u] reqs].
  - apply map_Forall_empty.
  - apply (serve_stamped _ _ u); [done| |apply map_Forall_empty].
    rewrite fmap_cons in *. simpl in *.
    by rewrite datetime_le_refl.
Qed.

(** The clock set back.  After a create served at [clock1], an update with
    [{"completed": true}] served at the earlier reading [clock_back] leaves
    an [updated_at] before the previous one, as instants and as strings.
    And on a clock that went forward, from [clock0] to [clock1], the new
    [updated_at] is still the smaller string, for the previous one has no
    microseconds. *)
Lemma updated_at_can_go_back :
  _TASKS (serve late_start initial).2 !! 1 = Some late_milk ∧
  datetime_le clock1 clock_back = false ∧
  (TaskResource.PUT 1 {[ "completed" := JBool true ]} clock_back
     (serve late_start initial).2).1 =
    inr (set_updated_at (str "2024-05-17T09:29:59.999999Z")
           (set_completed true late_milk)) ∧
  (TaskResource.PATCH 1 {[ "completed" := JBool true ]} clock_back
     (serve late_start initial).2).1 =
    inr (set_updated_at (str "2024-05-17T09:29:59.999999Z")
           (set_completed true late_milk)) ∧
  timestamp_le (Task.updated_at late_milk)
    (str "2024-05-17T09:29:59.999999Z") = false ∧
  str_le (Task.updated_at late_milk)
    (str "2024-05-17T09:29:59.999999Z") = false ∧
  _TASKS (serve one_request initial).2 !! 1 = Some buy_milk ∧
  datetime_le clock0 clock1 = true ∧
  (TaskResource.PATCH 1 {[ "completed" := JBool true ]} clock1
     (serve one_request initial).2).1 =
    inr (set_updated_at (str "2024-05-17T09:30:00.250000Z")
           (set_completed true buy_milk)) ∧
  str_le (Task.updated_at buy_milk)
    (str "2024-05-17T09:30:00.250000Z") = false.
Proof. repeat split. Qed.

(** C7 (amended): an update of an existing task with the body
    [{"completed": true}], by PUT or by PATCH, succeeds and changes nothing
    but [completed] and [updated_at]: the id, the title and [created_at]
    are kept, and so is every other record of the store.  The new
    [updated_at] is the current reading of the clock.  When the store is
    the result of a run of the process from its initial state and the
    readings of the clock are valid and have never gone back, the new
    [updated_at] denotes an instant not earlier than the previous one;
    and when the two timestamps have the same length (both with, or both
    without, microseconds) it is then also not smaller as a string. *)
Theorem complete_changes_only_completed st task_id t utcnow :
  _TASKS st !! task_id = Some t →
  let body : gmap string json := {[ "completed" := JBool true ]} in
  ∃ t',
    TaskResource.PUT task_id body utcnow st =
      (inr t', with_tasks st (<[task_id := t']> (_TASKS st))) ∧
    TaskResource.PATCH task_id body utcnow st =
      (inr t', with_tasks st (<[task_id := t']> (_TASKS st))) ∧
    Task.id t' = Task.id t ∧
    Task.title t' = Task.title t ∧
    Task.created_at t' = Task.created_at t ∧
    Task.completed t' = true ∧
    Task.updated_at t' = _now_iso utcnow ∧
    (∀ reqs,
       (serve reqs initial).2 = st →
       forallb valid_datetime (reqs.*2 ++ [utcnow]) = true →
       nondecreasing (reqs.*2 ++ [utcnow]) = true →
       timestamp_le (Task.updated_at t) (Task.updated_at t') = true ∧
       (length (Task.updated_at t) = length (Task.updated_at t') →
        str_le (Task.updated_at t) (Task.updated_at t') = true)).
Proof.
  intros Ht body.
  assert (TaskUpdateSchema.load body =
            inr {| Payload.title := None;
                   Payload.completed := Some (Some true) |}) as Hload
    by reflexivity.
  exists (apply_update {| Payload.title := None;
                          Payload.completed := Some (Some true) |}
            (_now_iso utcnow) t).
  rewrite (PUT_accepted _ _ _ _ _ Hload), (PATCH_accepted _ _ _ _ _ Hload).
  rewrite Ht. simpl.
  repeat (split; [done|]).
  intros reqs <- Hv Hmono.
  pose proof (reachable_stamped reqs utcnow Hv Hmono) as Hst.
  destruct (Hst task_id t Ht) as (d & Hd & Hle & ->).
  assert (valid_datetime utcnow = true) as Hnow.
  { rewrite forallb_app in Hv. apply andb_true_iff in Hv as [_ Hv].
    simpl in Hv. by rewrite andb_true_r in Hv. }
  split; [by rewrite timestamp_le_now_iso|].
  rewrite !length_now_iso. intros Hlen.
  rewrite str_le_now_iso; [done|done|done|].
  by destruct (microsecond d =? 0), (microsecond utcnow =? 0).
Qed.

Lemma complete_changes_only_completed_witness :
  _TASKS two_tasks !! 2 = Some walk_dog ∧
  (serve two_requests initial).2 = two_tasks ∧
  forallb valid_datetime (two_requests.*2 ++ [clock2]) = true ∧
  nondecreasing (two_requests.*2 ++ [clock2]) = true ∧
  ∃ t',
    TaskResource.PUT 2 {[ "completed" := JBool true ]} clock2 two_tasks =
      (inr t', with_tasks two_tasks (<[2 := t']> (_TASKS two_tasks))) ∧
    TaskResource.PATCH 2 {[ "completed" := JBool true ]} clock2 two_tasks =
      (inr t', with_tasks two_tasks (<[2 := t']> (_TASKS two_tasks))) ∧
    Task.id t' = Task.id walk_dog ∧
    Task.title t' = Task.title walk_dog ∧
    Task.created_at t' = Task.created_at walk_dog ∧
    Task.completed t' = true ∧
    Task.updated_at t' = str "2024-05-17T09:30:01.500000Z" ∧
    timestamp_le (Task.updated_at walk_dog) (Task.updated_at t') = true ∧
    str_le (Task.updated_at walk_dog) (Task.updated_at t') = true.
Proof.
  repeat (split; [reflexivity|]).
  destruct (complete_changes_only_completed two_tasks 2 walk_dog clock2 eq_refl)
    as (t' & Hput & Hpatch & Hid & Htitle & Hcreated & Hdone & Hnow & Hle).
  exists t'. repeat (split; [assumption|]).
  destruct (Hle two_requests eq_refl eq_refl eq_refl) as [Hinstant Hstr].
  split; [exact Hinstant|].
  apply Hstr. rewrite Hnow. reflexivity.
Defined.

(** * Further properties of the routes *)

Example create_walk_dog :
  TasksCollection.POST body_walk_dog clock1 one_task = (inr walk_dog, two_tasks).
Proof. reflexivity. Qed.

(** ** The handlers on any payload *)

(** [put], computed on any payload, also one no schema would hand over. *)
Lemma put_run payload task_id utcnow st :
  TaskResource.put payload task_id utcnow st =
    if not_payload payload then (inl abort_400, st)
    else match _TASKS st !! task_id with
         | None => (inl abort_404, st)
         | Some t =>
             if has_field payload then
               let t' := apply_update payload (_now_iso utcnow) t in
               (inr t', with_tasks st (<[task_id := t']> (_TASKS st)))
             else (inl abort_400, st)
         end.
Proof.
  unfold TaskResource.put, TaskResource._get_or_404,
    setitem, deref, with_tasks, apply_update, not_payload, has_field.
  unfold_M.
  destruct payload as [[[s|]|] [[b|]|]]; simpl; try done;
    destruct (_TASKS st !! task_id) as [t|] eqn:E; simpl; try done;
    rewrite ?lookup_alter_eq, ?E; simpl;
    rewrite !(alter_alt_Some _ _ _ _ E), ?alter_insert_eq; done.
Qed.

(** [patch], computed on any payload. *)
Lemma patch_run payload task_id utcnow st :
  TaskResource.patch payload task_id utcnow st =
    match _TASKS st !! task_id with
    | None => (inl abort_404, st)
    | Some t =>
        if not_payload payload || blank_title payload then (inl abort_400, st)
        else
          let t' := apply_update payload (_now_iso utcnow) t in
          (inr t', with_tasks st (<[task_id := t']> (_TASKS st)))
    end.
Proof.
  unfold TaskResource.patch, TaskResource._get_or_404,
    setitem, deref, with_tasks, apply_update, not_payload, blank_title.
  unfold_M.
  destruct (_TASKS st !! task_id) as [t|] eqn:E; simpl; [|done].
  destruct payload as [[[s|]|] [[b|]|]]; simpl; try done;
    try (destruct (not_str (strip s)); simpl; [done|]);
    rewrite ?lookup_alter_eq, ?E; simpl;
    rewrite ?(alter_alt_Some _ _ _ _ E), ?alter_insert_eq; try done.
Qed.

(** X1: [put] and [patch] abort before they write.  Whatever payload
    they are handed, also one that went through no schema, a call that
    ends in an error leaves the store as it was. *)
Theorem handlers_abort_before_writing payload task_id utcnow st :
  (∀ e, (TaskResource.put payload task_id utcnow st).1 = inl e →
        (TaskResource.put payload task_id utcnow st).2 = st) ∧
  (∀ e, (TaskResource.patch payload task_id utcnow st).1 = inl e →
        (TaskResource.patch payload task_id utcnow st).2 = st).
Proof.
  rewrite put_run, patch_run. split; intros e.
  - destruct (not_payload payload); [done|].
    destruct (_TASKS st !! task_id); [|done].
    by destruct (has_field payload).
  - destruct (_TASKS st !! task_id); [|done].
    by destruct (not_payload payload || blank_title payload).
Qed.

(** ** Requests *)

(** X2: a request that is answered with an error changes nothing: the
    store after it is the store before it. *)
Theorem error_leaves_store r utcnow st e :
  (dispatch r utcnow st).1 = Error e → (dispatch r utcnow st).2 = st.
Proof.
  destruct r as [|body|task_id|task_id body|task_id body|task_id];
    unfold dispatch, respond.
  - done.
  - destruct (TaskCreateSchema.load body) as [e'|p] eqn:Hload.
    { by rewrite (POST_rejected _ _ _ _ Hload). }
    destruct (create_load_ok _ _ Hload) as (s & b & _ & _ & ->).
    by rewrite (POST_accepted _ _ _ _ _ Hload).
  - rewrite GET_run. by destruct (_TASKS st !! task_id).
  - destruct (TaskUpdateSchema.load body) as [e'|p] eqn:Hload.
    { by rewrite (PUT_rejected _ _ _ _ _ Hload). }
    rewrite (PUT_accepted _ _ _ _ _ Hload).
    destruct (not_payload p); [done|].
    by destruct (_TASKS st !! task_id).
  - destruct (TaskUpdateSchema.load body) as [e'|p] eqn:Hload.
    { by rewrite (PATCH_rejected _ _ _ _ _ Hload). }
    rewrite (PATCH_accepted _ _ _ _ _ Hload).
    destruct (_TASKS st !! task_id); [|done].
    by destruct (not_payload p).
  - rewrite DELETE_run. by destruct (_TASKS st !! task_id).
Qed.

Lemma error_leaves_store_witness :
  (dispatch (ReplaceTask 1 body_blank) clock1 two_tasks).1
    = Error ValidationError ∧
  (dispatch (ReplaceTask 1 body_blank) clock1 two_tasks).2 = two_tasks.
Proof.
  split; [reflexivity|].
  exact (error_leaves_store (ReplaceTask 1 body_blank) clock1 two_tasks
           ValidationError eq_refl).
Defined.

(** X3: a request writes at most one record, the one it addresses (for a
    creation, the one filed under the id it hands out): every other key
    of the store is bound after the request as it was before. *)
Theorem other_records_untouched r utcnow st k :
  target r st ≠ Some k →
  _TASKS (dispatch r utcnow st).2 !! k = _TASKS st !! k.
Proof.
  intros Hk.
  destruct r as [|body|task_id|task_id body|task_id body|task_id];
    unfold dispatch, respond; simpl in Hk.
  - done.
  - destruct (TaskCreateSchema.load body) as [e|p] eqn:Hload.
    { by rewrite (POST_rejected _ _ _ _ Hload). }
    destruct (create_load_ok _ _ Hload) as (s & b & _ & _ & ->).
    rewrite (POST_accepted _ _ _ _ _ Hload). simpl.
    apply lookup_insert_ne. congruence.
  - rewrite GET_run. by destruct (_TASKS st !! task_id).
  - destruct (TaskUpdateSchema.load body) as [e|p] eqn:Hload.
    { by rewrite (PUT_rejected _ _ _ _ _ Hload). }
    rewrite (PUT_accepted _ _ _ _ _ Hload).
    destruct (not_payload p); [done|].
    destruct (_TASKS st !! task_id); [|done]. simpl.
    apply lookup_insert_ne. congruence.
  - destruct (TaskUpdateSchema.load body) as [e|p] eqn:Hload.
    { by rewrite (PATCH_rejected _ _ _ _ _ Hload). }
    rewrite (PATCH_accepted _ _ _ _ _ Hload).
    destruct (_TASKS st !! task_id); [|done].
    destruct (not_payload p); [done|]. simpl.
    apply lookup_insert_ne. congruence.
  - rewrite DELETE_run.
    destruct (_TASKS st !! task_id); [|done]. simpl.
    apply lookup_delete_ne. congruence.
Qed.

Lemma other_records_untouched_witness :
  target (DeleteTask 1) two_tasks ≠ Some 2 ∧
  _TASKS (dispatch (DeleteTask 1) clock1 two_tasks).2 !! 2 =
    _TASKS two_tasks !! 2.
Proof.
  assert (H : target (DeleteTask 1) two_tasks ≠ Some 2) by discriminate.
  split; [exact H|].
  exact (other_records_untouched (DeleteTask 1) clock1 two_tasks 2 H).
Defined.

(** X4: on an id that is not in the store, every operation on a single
    task signals NotFound and changes nothing: get and delete always,
    PATCH for every body its schema accepts (the empty object included),
    PUT for every accepted body but the empty object. *)
Theorem missing_id_not_found task_id st :
  _TASKS st !! task_id = None →
  TaskResource.GET task_id st = (inl abort_404, st) ∧
  TaskResource.DELETE task_id st = (inl abort_404, st) ∧
  (∀ body utcnow p, TaskUpdateSchema.load body = inr p →
     TaskResource.PATCH task_id body utcnow st = (inl abort_404, st)) ∧
  (∀ body utcnow p, TaskUpdateSchema.load body = inr p → body ≠ ∅ →
     TaskResource.PUT task_id body utcnow st = (inl abort_404, st)).
Proof.
  intros Hk. rewrite GET_run, DELETE_run, Hk.
  repeat split.
  - intros body utcnow p Hload.
    by rewrite (PATCH_accepted _ _ _ _ _ Hload), Hk.
  - intros body utcnow p Hload Hne.
    rewrite (PUT_accepted _ _ _ _ _ Hload), Hk.
    destruct (not_payload p) eqn:Hp; [|done].
    by apply (update_load_empty _ _ Hload) in Hp.
Qed.

Lemma missing_id_not_found_witness :
  _TASKS two_tasks !! 9999 = None ∧
  TaskResource.GET 9999 two_tasks = (inl abort_404, two_tasks) ∧
  TaskResource.DELETE 9999 two_tasks = (inl abort_404, two_tasks) ∧
  (∀ body utcnow p, TaskUpdateSchema.load body = inr p →
     TaskResource.PATCH 9999 body utcnow two_tasks =
       (inl abort_404, two_tasks)) ∧
  (∀ body utcnow p, TaskUpdateSchema.load body = inr p → body ≠ ∅ →
     TaskResource.PUT 9999 body utcnow two_tasks =
       (inl abort_404, two_tasks)).
Proof.
  split; [reflexivity|].
  exact (missing_id_not_found 9999 two_tasks eq_refl).
Defined.

(** What a request does to the store, in one of four shapes: nothing, a
    record filed under the id handed out, a record updated in place, or a
    record removed. *)
Lemma dispatch_effect r utcnow st :
  dispatch r utcnow st = ((dispatch r utcnow st).1, st) ∨
  (∃ body s b,
     r = CreateTask body ∧ body !! "title" = Some (JStr s) ∧ strip s ≠ [] ∧
     let t := {| Task.id := _NEXT_ID st; Task.title := strip s;
                 Task.completed := b;
                 Task.created_at := _now_iso utcnow;
                 Task.updated_at := _now_iso utcnow |} in
     dispatch r utcnow st =
       (Created t, {| _TASKS := <[_NEXT_ID st := t]> (_TASKS st);
                      _NEXT_ID := _NEXT_ID st + 1 |})) ∨
  (∃ task_id body p t,
     (r = ReplaceTask task_id body ∨ r = UpdateTask task_id body) ∧
     TaskUpdateSchema.load body = inr p ∧
     _TASKS st !! task_id = Some t ∧
     let t' := apply_update p (_now_iso utcnow) t in
     dispatch r utcnow st =
       (Ok t', with_tasks st (<[task_id := t']> (_TASKS st)))) ∨
  (∃ task_id t,
     r = DeleteTask task_id ∧ _TASKS st !! task_id = Some t ∧
     dispatch r utcnow st =
       (NoContent, with_tasks st (delete task_id (_TASKS st)))).
Proof.
  destruct r as [|body|task_id|task_id body|task_id body|task_id];
    unfold dispatch, respond.
  - by left.
  - destruct (TaskCreateSchema.load body) as [e|p] eqn:Hload.
    { left. by rewrite (POST_rejected _ _ _ _ Hload). }
    destruct (create_load_ok _ _ Hload) as (s & b & Hs & Hne & ->).
    right; left. exists body, s, b.
    by rewrite (POST_accepted _ _ _ _ _ Hload).
  - left. rewrite GET_run. by destruct (_TASKS st !! task_id).
  - destruct (TaskUpdateSchema.load body) as [e|p] eqn:Hload.
    { left. by rewrite (PUT_rejected _ _ _ _ _ Hload). }
    rewrite (PUT_accepted _ _ _ _ _ Hload).
    destruct (not_payload p); [by left|].
    destruct (_TASKS st !! task_id) as [t|] eqn:Ht; [|by left].
    right; right; left. exists task_id, body, p, t. eauto.
  - destruct (TaskUpdateSchema.load body) as [e|p] eqn:Hload.
    { left. by rewrite (PATCH_rejected _ _ _ _ _ Hload). }
    rewrite (PATCH_accepted _ _ _ _ _ Hload).
    destruct (_TASKS st !! task_id) as [t|] eqn:Ht; [|by left].
    destruct (not_payload p); [by left|].
    right; right; left. exists task_id, body, p, t. eauto.
  - rewrite DELETE_run.
    destruct (_TASKS st !! task_id) as [t|] eqn:Ht; [|by left].
    right; right; right. exists task_id, t. eauto.
Qed.

(** ** Identifiers, continued *)

Lemma created_ids_cons resp resps :
  created_ids (resp :: resps) =
    match created_id resp with
    | Some i => i :: created_ids resps
    | None => created_ids resps
    end.
Proof. done. Qed.

(** X5: the ids handed out along a run are consecutive: starting from a
    store whose counter is [n], the successful creations get [n], [n+1],
    ... in this order, and the counter ends at [n] plus their number.
    From the initial store the ids are 1, 2, 3, ... *)
Theorem created_ids_consecutive reqs :
  ∀ st,
    created_ids (serve reqs st).1 =
      seqZ (_NEXT_ID st) (Z.of_nat (length (created_ids (serve reqs st).1))) ∧
    _NEXT_ID (serve reqs st).2 =
      _NEXT_ID st + Z.of_nat (length (created_ids (serve reqs st).1)).
Proof.
  induction reqs as [|[r utcnow] reqs IH]; intros st.
  - simpl. split; [done|lia].
  - rewrite serve_cons. cbn [fst snd]. rewrite created_ids_cons.
    pose proof (dispatch_next_id r utcnow st) as Hstep.
    destruct (IH (dispatch r utcnow st).2) as [Hids Hnext].
    destruct (created_id (dispatch r utcnow st).1) as [i|].
    + destruct Hstep as [-> Hstep]. rewrite Hstep in Hids, Hnext.
      rewrite length_cons. split; [|lia].
      rewrite seqZ_cons by lia. f_equal.
      rewrite Hids at 1. f_equal; lia.
    + rewrite Hstep in Hids, Hnext. done.
Qed.

(** X6: in a store reached by a run from the initial store, a record is
    filed under its own id, and that id was handed out by the counter:
    a get of [task_id] that succeeds returns a task whose id is
    [task_id], between 1 and the counter. *)
Theorem get_returns_own_id reqs task_id t :
  (TaskResource.GET task_id (serve reqs initial).2).1 = inr t →
  Task.id t = task_id ∧ 1 ≤ task_id < _NEXT_ID (serve reqs initial).2.
Proof.
  rewrite GET_run.
  destruct (_TASKS (serve reqs initial).2 !! task_id) as [t'|] eqn:E;
    [|done].
  intros [= ->].
  destruct (serve_ids_ok reqs initial ids_ok_initial) as [_ Hinv].
  by apply (Hinv task_id t).
Qed.

Lemma get_returns_own_id_witness :
  (TaskResource.GET 1 (serve one_request initial).2).1 = inr buy_milk ∧
  Task.id buy_milk = 1 ∧ 1 ≤ 1 < _NEXT_ID (serve one_request initial).2.
Proof.
  split; [reflexivity|].
  exact (get_returns_own_id one_request 1 buy_milk eq_refl).
Defined.

Lemma dispatch_retired r utcnow st k :
  k < _NEXT_ID st → _TASKS st !! k = None →
  k < _NEXT_ID (dispatch r utcnow st).2 ∧
  _TASKS (dispatch r utcnow st).2 !! k = None.
Proof.
  intros Hk Hnone.
  destruct (dispatch_effect r utcnow st)
    as [->|[(body & s & b & _ & _ & _ & ->)
          |[(task_id & body & p & t & _ & _ & Ht & ->)
           |(task_id & t & _ & Ht & ->)]]]; simpl.
  - done.
  - split; [lia|]. rewrite lookup_insert_ne by lia. done.
  - split; [done|]. rewrite lookup_insert_ne by congruence. done.
  - split; [done|]. rewrite lookup_delete_ne by congruence. done.
Qed.

(** X7: an id is retired for good.  Once an id below the counter is not
    in the store (it was deleted), no run of requests brings it back:
    it stays absent, so every later get, update or delete of it signals
    NotFound. *)
Theorem retired_id_stays_absent reqs :
  ∀ st k,
    k < _NEXT_ID st → _TASKS st !! k = None →
    _TASKS (serve reqs st).2 !! k = None.
Proof.
  induction reqs as [|[r utcnow] reqs IH]; intros st k Hk Hnone; [done|].
  rewrite serve_cons. simpl.
  destruct (dispatch_retired r utcnow st k Hk Hnone) as [Hk' Hnone'].
  by apply IH.
Qed.

Lemma retired_id_stays_absent_witness :
  1 < _NEXT_ID (with_tasks one_task ∅) ∧
  _TASKS (with_tasks one_task ∅) !! 1 = None ∧
  _TASKS (serve [(CreateTask body_buy_milk, clock1);
                 (ReplaceTask 1 body_completed, clock1)]
            (with_tasks one_task ∅)).2 !! 1 = None.
Proof.
  assert (H1 : 1 < _NEXT_ID (with_tasks one_task ∅)) by (simpl; lia).
  split; [exact H1|]. split; [reflexivity|].
  exact (retired_id_stays_absent
           [(CreateTask body_buy_milk, clock1);
            (ReplaceTask 1 body_completed, clock1)]
           (with_tasks one_task ∅) 1 H1 eq_refl).
Defined.

(** ** Titles, continued *)

(** X8: a creation loses nothing of the title but whitespace at its two
    ends.  The title sent is the title stored between a prefix and a
    suffix of whitespace, and the title stored neither starts nor ends
    with whitespace; whitespace inside the title is kept. *)
Theorem title_loses_outer_whitespace body s utcnow st t st' :
  body !! "title" = Some (JStr s) →
  TasksCollection.POST body utcnow st = (inr t, st') →
  ∃ l r,
    s = l ++ Task.title t ++ r ∧
    whitespace_only l = true ∧ whitespace_only r = true ∧
    (∀ c, head (Task.title t) = Some c → Py_UNICODE_ISSPACE c = false) ∧
    (∀ c, last (Task.title t) = Some c → Py_UNICODE_ISSPACE c = false).
Proof.
  intros Hs.
  destruct (TaskCreateSchema.load body) as [e|p] eqn:Hload.
  { by rewrite (POST_rejected _ _ _ _ Hload). }
  destruct (create_load_ok _ _ Hload) as (s' & b & Hs' & _ & ->).
  rewrite (POST_accepted _ _ _ _ _ Hload). intros [= <- _]. simpl.
  assert (s' = s) as -> by congruence.
  destruct (lstrip_decompose s) as (l & Hl & Hwl).
  destruct (rstrip_decompose (lstrip s)) as (r & Hr & Hwr).
  exists l, r. repeat split; try done.
  - unfold strip. by rewrite <- Hr.
  - apply strip_head.
  - apply strip_last.
Qed.

Lemma title_loses_outer_whitespace_witness :
  body_walk_dog !! "title" = Some (JStr (str "Walk dog ")) ∧
  TasksCollection.POST body_walk_dog clock1 one_task =
    (inr walk_dog, two_tasks) ∧
  ∃ l r,
    str "Walk dog " = l ++ Task.title walk_dog ++ r ∧
    whitespace_only l = true ∧ whitespace_only r = true ∧
    (∀ c, head (Task.title walk_dog) = Some c →
          Py_UNICODE_ISSPACE c = false) ∧
    (∀ c, last (Task.title walk_dog) = Some c →
          Py_UNICODE_ISSPACE c = false).
Proof.
  split; [reflexivity|]. split; [reflexivity|].
  exact (title_loses_outer_whitespace body_walk_dog (str "Walk dog ")
           clock1 one_task walk_dog two_tasks eq_refl eq_refl).
Defined.

(** X9: every request keeps the stored titles stripped: no title in the
    store starts or ends with whitespace, so that stripping a stored
    title gives it back. *)
Theorem titles_stripped_preserved r utcnow st :
  titles_stripped st → titles_stripped (dispatch r utcnow st).2.
Proof.
  unfold titles_stripped. intros Hinv.
  destruct (dispatch_effect r utcnow st)
    as [->|[(body & s & b & _ & _ & _ & ->)
          |[(task_id & body & p & t & _ & Hload & Ht & ->)
           |(task_id & t & _ & Ht & ->)]]]; simpl.
  - done.
  - apply map_Forall_insert_2; [|done]. simpl. apply strip_strip.
  - apply map_Forall_insert_2; [|done]. simpl.
    destruct (Payload.title p) as [[s|]|];
      [apply strip_strip|by apply (Hinv task_id)..].
  - by apply map_Forall_delete.
Qed.

Lemma titles_stripped_preserved_witness :
  titles_stripped one_task ∧
  titles_stripped (dispatch (CreateTask body_walk_dog) clock1 one_task).2.
Proof.
  assert (H : titles_stripped one_task).
  { apply map_Forall_insert_2; [reflexivity|apply map_Forall_empty]. }
  split; [exact H|].
  exact (titles_stripped_preserved (CreateTask body_walk_dog) clock1
           one_task H).
Defined.

(** ** Timestamps, continued *)

(** X10: [_now_iso] writes different readings of the clock as different
    timestamps. *)
Theorem now_iso_injective a b :
  valid_datetime a = true → valid_datetime b = true →
  a ≠ b → _now_iso a ≠ _now_iso b.
Proof.
  intros Ha Hb Hne Heq. apply Hne.
  apply (f_equal parse_timestamp) in Heq.
  rewrite (parse_now_iso a Ha), (parse_now_iso b Hb) in Heq.
  by injection Heq.
Qed.

Lemma now_iso_injective_witness :
  valid_datetime clock0 = true ∧ valid_datetime clock1 = true ∧
  clock0 ≠ clock1 ∧ _now_iso clock0 ≠ _now_iso clock1.
Proof.
  assert (H : clock0 ≠ clock1) by discriminate.
  repeat (split; [reflexivity|]). split; [exact H|].
  exact (now_iso_injective clock0 clock1 eq_refl eq_refl H).
Defined.

Lemma stamped_in_order_later d d' st :
  datetime_le d d' = true → stamped_in_order d st → stamped_in_order d' st.
Proof.
  intros Hle Hst. unfold stamped_in_order in *.
  eapply map_Forall_impl; [exact Hst|].
  intros _ t (dc & du & ? & ? & ? & ? & ? & ?). exists dc, du.
  eauto 10 using datetime_le_trans.
Qed.

Lemma dispatch_stamped_in_order r utcnow d st :
  valid_datetime utcnow = true → datetime_le d utcnow = true →
  stamped_in_order d st → stamped_in_order utcnow (dispatch r utcnow st).2.
Proof.
  intros Hv Hle Hst%(stamped_in_order_later _ _ _ Hle).
  unfold stamped_in_order in *.
  destruct (dispatch_effect r utcnow st)
    as [->|[(body & s & b & _ & _ & _ & ->)
          |[(task_id & body & p & t & _ & Hload & Ht & ->)
           |(task_id & t & _ & Ht & ->)]]]; simpl.
  - done.
  - apply map_Forall_insert_2; [|done]. simpl.
    exists utcnow, utcnow. eauto 10 using datetime_le_refl.
  - apply map_Forall_insert_2; [|done]. simpl.
    destruct (Hst task_id t Ht) as (dc & du & ? & ? & ? & ? & ? & ?).
    exists dc, utcnow.
    eauto 10 using datetime_le_refl, datetime_le_trans.
  - by apply map_Forall_delete.
Qed.

Lemma serve_stamped_in_order reqs :
  ∀ st d,
    forallb valid_datetime reqs.*2 = true →
    nondecreasing (d :: reqs.*2) = true →
    stamped_in_order d st →
    ∃ d', stamped_in_order d' (serve reqs st).2.
Proof.
  induction reqs as [|[r u] reqs IH]; intros st d Hv Hmono Hst.
  - by exists d.
  - rewrite serve_cons. simpl.
    rewrite fmap_cons in Hv, Hmono. simpl in Hv, Hmono.
    apply andb_true_iff in Hv as [Hu Hv].
    apply andb_true_iff in Hmono as [Hle Hmono].
    apply (IH _ u); [done|done|].
    by apply (dispatch_stamped_in_order _ _ d).
Qed.

(** X11: in a store reached by a run from the initial store, on a clock
    that never goes back, no task was updated before it was created:
    its [updated_at] denotes an instant at or after its [created_at]. *)
Theorem updated_not_before_created reqs task_id t :
  forallb valid_datetime reqs.*2 = true →
  nondecreasing reqs.*2 = true →
  _TASKS (serve reqs initial).2 !! task_id = Some t →
  timestamp_le (Task.created_at t) (Task.updated_at t) = true.
Proof.
  intros Hv Hmono Ht.
  assert (∃ d, stamped_in_order d (serve reqs initial).2) as [d Hst].
  { destruct reqs as [|[r u] reqs]; [by exists clock0|].
    apply (serve_stamped_in_order _ _ u); [done| |apply map_Forall_empty].
    rewrite fmap_cons in *. simpl in *. by rewrite datetime_le_refl. }
  destruct (Hst task_id t Ht) as (dc & du & Hdc & Hdu & Hle & _ & -> & ->).
  by rewrite timestamp_le_now_iso.
Qed.

Lemma updated_not_before_created_witness :
  forallb valid_datetime
    ((one_request ++ [(UpdateTask 1 body_completed, clock1)]).*2) = true ∧
  nondecreasing
    ((one_request ++ [(UpdateTask 1 body_completed, clock1)]).*2) = true ∧
  _TASKS (serve (one_request ++ [(UpdateTask 1 body_completed, clock1)])
            initial).2 !! 1 =
    Some (apply_update {| Payload.title := None;
                          Payload.completed := Some (Some true) |}
            (_now_iso clock1) buy_milk) ∧
  timestamp_le (_now_iso clock0) (_now_iso clock1) = true.
Proof.
  repeat (split; [reflexivity|]).
  exact (updated_not_before_created
           (one_request ++ [(UpdateTask 1 body_completed, clock1)]) 1 _
           eq_refl eq_refl eq_refl).
Defined.

(** ** Fields of a creation and of an update *)

(** The [completed] entry of an accepted body, as the schemas load it. *)
Lemma load_field_completed dflt raw c :
  load_field Boolean_deserialize false dflt raw = inr c →
  match raw with
  | None => c = dflt
  | Some v => ∃ b, Boolean_deserialize v = Some b ∧ c = Some b
  end.
Proof.
  intros H. apply load_field_ok in H as [(-> & _ & ->)|(v & b & -> & _ & ? & ->)];
    eauto.
Qed.

Lemma create_load_fields body p :
  TaskCreateSchema.load body = inr p →
  dom body ⊆ ({["title"; "completed"]} : gset string) ∧
  Payload.completed p =
    Some (Some match body !! "completed" with
               | Some v => default false (Boolean_deserialize v)
               | None => false
               end) ∧
  match body !! "completed" with
  | Some v => is_Some (Boolean_deserialize v)
  | None => True
  end.
Proof.
  unfold TaskCreateSchema.load. unfold_result. intros H.
  destruct (load_field String_deserialize _ _ _) as [|t]; [done|].
  destruct (load_field Boolean_deserialize _ _ _) as [|c] eqn:Hc; [done|].
  unfold raise_unknown in H. case_bool_decide as Hdom; [|done].
  split; [done|].
  apply load_field_completed in Hc.
  destruct (match t with Some v => _ | None => _ end); [done|].
  injection H as <-. simpl.
  destruct (body !! "completed") as [v|].
  - destruct Hc as (b & Hb & ->). rewrite Hb. eauto.
  - by subst c.
Qed.

Lemma update_load_completed body p :
  TaskUpdateSchema.load body = inr p →
  match body !! "completed" with
  | Some v => ∃ b, Boolean_deserialize v = Some b ∧
                   Payload.completed p = Some (Some b)
  | None => Payload.completed p = None
  end.
Proof.
  intros H. apply update_load_ok in H as (_ & _ & [[-> ->]|(v & b & -> & ? & ->)]);
    eauto.
Qed.

(** X12: the [completed] of a created task is what the body says: false
    when the body has no [completed], and otherwise the boolean the value
    stands for. *)
Theorem create_completed body utcnow st t st' :
  TasksCollection.POST body utcnow st = (inr t, st') →
  match body !! "completed" with
  | None => Task.completed t = false
  | Some v => Boolean_deserialize v = Some (Task.completed t)
  end.
Proof.
  destruct (TaskCreateSchema.load body) as [e|p] eqn:Hload.
  { by rewrite (POST_rejected _ _ _ _ Hload). }
  destruct (create_load_ok _ _ Hload) as (s & b & _ & _ & ->).
  rewrite (POST_accepted _ _ _ _ _ Hload). intros [= <- _]. simpl.
  apply create_load_fields in Hload as (_ & Hc & Hv). simpl in Hc.
  destruct (body !! "completed") as [v|]; [|congruence].
  destruct Hv as [b' Hb']. rewrite Hb' in *. simpl in Hc. congruence.
Qed.

Lemma create_completed_witness :
  TasksCollection.POST body_walk_dog clock1 one_task =
    (inr walk_dog, two_tasks) ∧
  match body_walk_dog !! "completed" with
  | None => Task.completed walk_dog = false
  | Some v => Boolean_deserialize v = Some (Task.completed walk_dog)
  end.
Proof.
  split; [reflexivity|].
  exact (create_completed body_walk_dog clock1 one_task walk_dog two_tasks
           eq_refl).
Defined.

(** An update that succeeded, by either view, taken apart. *)
Lemma update_succeeded task_id body utcnow st t' st' :
  TaskResource.PUT task_id body utcnow st = (inr t', st') ∨
  TaskResource.PATCH task_id body utcnow st = (inr t', st') →
  ∃ p t,
    TaskUpdateSchema.load body = inr p ∧ not_payload p = false ∧
    _TASKS st !! task_id = Some t ∧
    t' = apply_update p (_now_iso utcnow) t ∧
    st' = with_tasks st (<[task_id := t']> (_TASKS st)).
Proof.
  destruct (TaskUpdateSchema.load body) as [e|p] eqn:Hload.
  { rewrite (PUT_rejected _ _ _ _ _ Hload), (PATCH_rejected _ _ _ _ _ Hload).
    by intros [|]. }
  rewrite (PUT_accepted _ _ _ _ _ Hload), (PATCH_accepted _ _ _ _ _ Hload).
  destruct (_TASKS st !! task_id) as [t|] eqn:Ht;
    destruct (not_payload p) eqn:Hp; try by intros [|].
  intros [[= <- <-]|[= <- <-]]; eauto 10.
Qed.

(** X13: an update is partial, by PUT as by PATCH: a field the body does
    not supply keeps its value.  The id and [created_at] are never
    changed, [updated_at] is set to the reading of the clock, [completed]
    when supplied becomes the boolean the value stands for, and the store
    changes at the updated record only. *)
Theorem update_keeps_unsupplied_fields task_id body utcnow st t t' st' :
  _TASKS st !! task_id = Some t →
  TaskResource.PUT task_id body utcnow st = (inr t', st') ∨
  TaskResource.PATCH task_id body utcnow st = (inr t', st') →
  Task.id t' = Task.id t ∧
  Task.created_at t' = Task.created_at t ∧
  Task.updated_at t' = _now_iso utcnow ∧
  (body !! "title" = None → Task.title t' = Task.title t) ∧
  (body !! "completed" = None → Task.completed t' = Task.completed t) ∧
  (∀ v, body !! "completed" = Some v →
        Boolean_deserialize v = Some (Task.completed t')) ∧
  st' = with_tasks st (<[task_id := t']> (_TASKS st)).
Proof.
  intros Ht Hok.
  apply update_succeeded in Hok as (p & t0 & Hload & _ & Ht0 & -> & ->).
  assert (t0 = t) as -> by congruence.
  pose proof (update_load_completed _ _ Hload) as Hc.
  apply update_load_ok in Hload as (_ & Hpt & _).
  repeat split; simpl.
  - intros Hnone. destruct Hpt as [[_ ->]|(s & ? & _)]; [done|congruence].
  - intros Hnone. rewrite Hnone in Hc. by rewrite Hc.
  - intros v Hv. rewrite Hv in Hc. destruct Hc as (b & Hb & ->). done.
Qed.

Lemma update_keeps_unsupplied_fields_witness :
  _TASKS two_tasks !! 2 = Some walk_dog ∧
  (TaskResource.PUT 2 body_buy_milk clock1 two_tasks =
     (inr (set_updated_at (_now_iso clock1)
             (set_title (str "Buy milk") walk_dog)),
      with_tasks two_tasks
        (<[2 := set_updated_at (_now_iso clock1)
                  (set_title (str "Buy milk") walk_dog)]>
           (_TASKS two_tasks))) ∨
   TaskResource.PATCH 2 body_buy_milk clock1 two_tasks =
     (inr (set_updated_at (_now_iso clock1)
             (set_title (str "Buy milk") walk_dog)),
      with_tasks two_tasks
        (<[2 := set_updated_at (_now_iso clock1)
                  (set_title (str "Buy milk") walk_dog)]>
           (_TASKS two_tasks)))) ∧
  (body_buy_milk !! "completed" = None →
   Task.completed (set_updated_at (_now_iso clock1)
                     (set_title (str "Buy milk") walk_dog)) =
     Task.completed walk_dog).
Proof.
  assert (H : TaskResource.PUT 2 body_buy_milk clock1 two_tasks =
     (inr (set_updated_at (_now_iso clock1)
             (set_title (str "Buy milk") walk_dog)),
      with_tasks two_tasks
        (<[2 := set_updated_at (_now_iso clock1)
                  (set_title (str "Buy milk") walk_dog)]>
           (_TASKS two_tasks)))) by reflexivity.
  split; [reflexivity|]. split; [left; exact H|].
  exact (proj1 (proj2 (proj2 (proj2 (proj2
           (update_keeps_unsupplied_fields 2 body_buy_milk clock1 two_tasks
              walk_dog _ _ eq_refl (or_introl H))))))).
Defined.

(** X14: an update is idempotent up to its timestamp.  When an update has
    succeeded, sending the same body to the same id again, by either
    view, succeeds and changes nothing but [updated_at]; at the same
    reading of the clock it changes nothing at all. *)
Theorem update_again task_id body utcnow utcnow' st t' st' :
  TaskResource.PUT task_id body utcnow st = (inr t', st') ∨
  TaskResource.PATCH task_id body utcnow st = (inr t', st') →
  let t'' := set_updated_at (_now_iso utcnow') t' in
  TaskResource.PUT task_id body utcnow' st' =
    (inr t'', with_tasks st' (<[task_id := t'']> (_TASKS st'))) ∧
  TaskResource.PATCH task_id body utcnow' st' =
    (inr t'', with_tasks st' (<[task_id := t'']> (_TASKS st'))) ∧
  (utcnow' = utcnow →
   TaskResource.PUT task_id body utcnow' st' = (inr t', st') ∧
   TaskResource.PATCH task_id body utcnow' st' = (inr t', st')).
Proof.
  intros Hok t''.
  apply update_succeeded in Hok as (p & t & Hload & Hp & Ht & -> & ->).
  rewrite (PUT_accepted _ _ _ _ _ Hload), (PATCH_accepted _ _ _ _ _ Hload).
  rewrite Hp. simpl. rewrite lookup_insert_eq.
  assert (apply_update p (_now_iso utcnow')
            (apply_update p (_now_iso utcnow) t) = t'') as Heq.
  { unfold t'', apply_update, set_updated_at. simpl.
    by destruct (Payload.title p) as [[?|]|],
                (Payload.completed p) as [[?|]|]. }
  rewrite Heq. split; [done|]. split; [done|].
  intros ->.
  assert (t'' = apply_update p (_now_iso utcnow) t) as -> by done.
  unfold with_tasks. simpl. by rewrite insert_insert_eq.
Qed.

Lemma update_again_witness :
  (TaskResource.PUT 1 body_completed clock1 one_task =
     (inr (set_updated_at (_now_iso clock1) (set_completed true buy_milk)),
      with_tasks one_task
        {[ 1 := set_updated_at (_now_iso clock1)
                  (set_completed true buy_milk) ]}) ∨
   TaskResource.PATCH 1 body_completed clock1 one_task =
     (inr (set_updated_at (_now_iso clock1) (set_completed true buy_milk)),
      with_tasks one_task
        {[ 1 := set_updated_at (_now_iso clock1)
                  (set_completed true buy_milk) ]})) ∧
  TaskResource.PUT 1 body_completed clock1
    (with_tasks one_task
       {[ 1 := set_updated_at (_now_iso clock1)
                 (set_completed true buy_milk) ]}) =
    (inr (set_updated_at (_now_iso clock1) (set_completed true buy_milk)),
     with_tasks one_task
       {[ 1 := set_updated_at (_now_iso clock1)
                 (set_completed true buy_milk) ]}).
Proof.
  assert (H : TaskResource.PUT 1 body_completed clock1 one_task =
     (inr (set_updated_at (_now_iso clock1) (set_completed true buy_milk)),
      with_tasks one_task
        {[ 1 := set_updated_at (_now_iso clock1)
                  (set_completed true buy_milk) ]})) by reflexivity.
  split; [left; exact H|].
  exact (proj1 (proj2 (proj2
           (update_again 1 body_completed clock1 clock1 one_task _ _
              (or_introl H))) eq_refl)).
Defined.

(** ** Listing and the set of tasks *)

(** X15: the listing is the contents of the store: it never fails, leaves
    the store alone, lists exactly the records bound in [_TASKS], and has
    as many entries as the store has keys. *)
Theorem listing_is_the_store st :
  ∃ l, TasksCollection.get st = (inr l, st) ∧
       (∀ t, t ∈ l ↔ ∃ k, _TASKS st !! k = Some t) ∧
       length l = size (_TASKS st).
Proof.
  exists ((map_to_list (_TASKS st)).*2). split; [done|]. split.
  - intros t. rewrite list_elem_of_fmap. split.
    + intros ([k t'] & -> & Hin). exists k.
      by apply elem_of_map_to_list.
    + intros (k & Hk). exists (k, t). split; [done|].
      by apply elem_of_map_to_list.
  - by rewrite length_fmap, length_map_to_list.
Qed.

(** X16: the set of ids in use changes by creation and deletion only.  In
    a store whose ids lie below the counter, a successful creation adds
    the id it hands out, which was not in use; a successful deletion
    removes the id it addresses; every other request, and every request
    that fails, leaves the set of ids as it was. *)
Theorem ids_in_use r utcnow st :
  ids_ok st →
  match (dispatch r utcnow st).1 with
  | Created t =>
      (Task.id t ∉ dom (_TASKS st)) ∧
      dom (_TASKS (dispatch r utcnow st).2) = {[Task.id t]} ∪ dom (_TASKS st)
  | NoContent =>
      ∃ task_id, r = DeleteTask task_id ∧ task_id ∈ dom (_TASKS st) ∧
        dom (_TASKS (dispatch r utcnow st).2) = dom (_TASKS st) ∖ {[task_id]}
  | _ => dom (_TASKS (dispatch r utcnow st).2) = dom (_TASKS st)
  end.
Proof.
  intros Hids.
  destruct r as [|body|task_id|task_id body|task_id body|task_id];
    unfold dispatch, respond.
  - done.
  - destruct (TaskCreateSchema.load body) as [e|p] eqn:Hload.
    { by rewrite (POST_rejected _ _ _ _ Hload). }
    destruct (create_load_ok _ _ Hload) as (s & b & _ & _ & ->).
    rewrite (POST_accepted _ _ _ _ _ Hload). simpl.
    split; [by apply not_elem_of_dom, next_id_fresh|apply dom_insert_L].
  - rewrite GET_run. by destruct (_TASKS st !! task_id).
  - destruct (TaskUpdateSchema.load body) as [e|p] eqn:Hload.
    { by rewrite (PUT_rejected _ _ _ _ _ Hload). }
    rewrite (PUT_accepted _ _ _ _ _ Hload).
    destruct (not_payload p); [done|].
    destruct (_TASKS st !! task_id) as [t|] eqn:Ht; [|done]. simpl.
    apply dom_insert_lookup_L. by rewrite Ht.
  - destruct (TaskUpdateSchema.load body) as [e|p] eqn:Hload.
    { by rewrite (PATCH_rejected _ _ _ _ _ Hload). }
    rewrite (PATCH_accepted _ _ _ _ _ Hload).
    destruct (_TASKS st !! task_id) as [t|] eqn:Ht; [|done].
    destruct (not_payload p); [done|]. simpl.
    apply dom_insert_lookup_L. by rewrite Ht.
  - rewrite DELETE_run.
    destruct (_TASKS st !! task_id) as [t|] eqn:Ht; [|done]. simpl.
    exists task_id. split; [done|]. split; [|apply dom_delete_L].
    apply elem_of_dom. by rewrite Ht.
Qed.

Lemma ids_in_use_witness :
  ids_ok two_tasks ∧
  ∃ task_id, DeleteTask 1 = DeleteTask task_id ∧
    task_id ∈ dom (_TASKS two_tasks) ∧
    dom (_TASKS (dispatch (DeleteTask 1) clock1 two_tasks).2) =
      dom (_TASKS two_tasks) ∖ {[task_id]}.
Proof.
  assert (H : ids_ok two_tasks).
  { split; [simpl; lia|].
    apply map_Forall_insert_2; [simpl; lia|].
    apply map_Forall_insert_2; [simpl; lia|apply map_Forall_empty]. }
  split; [exact H|].
  exact (ids_in_use (DeleteTask 1) clock1 two_tasks H).
Defined.

(** X17: a creation followed by the deletion of the id it returned leaves
    the tasks as they were before the two, in a store whose ids lie below
    the counter; the counter stays advanced, so the id is not handed out
    again. *)
Theorem create_then_delete body utcnow st p :
  ids_ok st →
  TaskCreateSchema.load body = inr p →
  ∃ t st',
    TasksCollection.POST body utcnow st = (inr t, st') ∧
    TaskResource.DELETE (Task.id t) st' =
      (inr tt, {| _TASKS := _TASKS st; _NEXT_ID := _NEXT_ID st + 1 |}).
Proof.
  intros Hids Hload.
  destruct (create_load_ok _ _ Hload) as (s & b & _ & _ & ->).
  eexists _, _. split; [by apply POST_accepted|].
  rewrite DELETE_run. simpl. rewrite lookup_insert_eq.
  unfold with_tasks. simpl.
  by rewrite delete_insert_id by by apply next_id_fresh.
Qed.

Lemma create_then_delete_witness :
  ids_ok one_task ∧
  TaskCreateSchema.load body_walk_dog =
    inr {| Payload.title := Some (Some (str "Walk dog "));
           Payload.completed := Some (Some true) |} ∧
  ∃ t st',
    TasksCollection.POST body_walk_dog clock1 one_task = (inr t, st') ∧
    TaskResource.DELETE (Task.id t) st' =
      (inr tt, {| _TASKS := _TASKS one_task;
                  _NEXT_ID := _NEXT_ID one_task + 1 |}).
Proof.
  assert (H : ids_ok one_task).
  { split; [simpl; lia|].
    apply map_Forall_insert_2; [simpl; lia|apply map_Forall_empty]. }
  split; [exact H|]. split; [reflexivity|].
  exact (create_then_delete body_walk_dog clock1 one_task _ H eq_refl).
Defined.

(** ** The guard of [patch] *)

(** [put] has no guard of its own on the title: handed a payload that went
    through no schema, it files an empty title. *)
Example put_trusts_the_schema :
  Task.title <$>
    _TASKS (TaskResource.put
              {| Payload.title := Some (Some (str "   "));
                 Payload.completed := None |} 1 clock1 one_task).2 !! 1
  = Some [].
Proof. reflexivity. Qed.

(** X18: [patch] guards the title itself.  Whatever payload it is handed,
    also one that went through no schema, it leaves no title in the store
    that is empty or made of whitespace only. *)
Theorem patch_guards_title payload task_id utcnow st :
  titles_ok st →
  titles_ok (TaskResource.patch payload task_id utcnow st).2.
Proof.
  unfold titles_ok. intros Hinv. rewrite patch_run.
  destruct (_TASKS st !! task_id) as [t|] eqn:Ht; [|done].
  destruct (not_payload payload) eqn:Hp; [done|]. simpl.
  destruct (blank_title payload) eqn:Hb; [done|]. simpl.
  apply map_Forall_insert_2; [|done]. simpl.
  unfold blank_title in Hb.
  destruct (Payload.title payload) as [[s|]|];
    [|by apply (Hinv task_id)..].
  apply title_ok_strip. by apply not_str_false.
Qed.

Lemma patch_guards_title_witness :
  titles_ok one_task ∧
  titles_ok (TaskResource.patch
               {| Payload.title := Some (Some (str "   "));
                  Payload.completed := Some (Some true) |}
               1 clock1 one_task).2.
Proof.
  assert (H : titles_ok one_task).
  { apply map_Forall_insert_2; [|apply map_Forall_empty].
    split; [discriminate|reflexivity]. }
  split; [exact H|].
  exact (patch_guards_title _ 1 clock1 one_task H).
Defined.

(** ** Responses sent back as requests *)

Lemma create_load_dom body p :
  TaskCreateSchema.load body = inr p →
  dom body ⊆ ({["title"; "completed"]} : gset string).
Proof. intros H. by apply create_load_fields in H as (? & _). Qed.

Lemma dump_has_id t : "id" ∈ dom (TaskResponseSchema.dump t).
Proof. apply elem_of_dom. by eexists. Qed.

(** X19: the JSON object a task is sent as is not accepted back as a
    request body: it carries the keys [id], [created_at] and [updated_at],
    which neither input schema declares, so a create, a PUT or a PATCH
    with it fails with a validation error and changes nothing. *)
Theorem response_not_accepted_back t task_id utcnow st :
  TasksCollection.POST (TaskResponseSchema.dump t) utcnow st =
    (inl ValidationError, st) ∧
  TaskResource.PUT task_id (TaskResponseSchema.dump t) utcnow st =
    (inl ValidationError, st) ∧
  TaskResource.PATCH task_id (TaskResponseSchema.dump t) utcnow st =
    (inl ValidationError, st).
Proof.
  assert (¬ dom (TaskResponseSchema.dump t)
            ⊆ ({["title"; "completed"]} : gset string)) as Hdom.
  { intros Hsub. pose proof (Hsub _ (dump_has_id t)) as Hin.
    apply elem_of_union in Hin as [Hin|Hin];
      apply elem_of_singleton in Hin; discriminate. }
  split; [|split].
  - destruct (TaskCreateSchema.load (TaskResponseSchema.dump t))
      as [e|p] eqn:Hload.
    + rewrite (POST_rejected _ _ _ _ Hload).
      by rewrite (create_load_error _ _ Hload).
    + by apply create_load_dom in Hload.
  - destruct (TaskUpdateSchema.load (TaskResponseSchema.dump t))
      as [e|p] eqn:Hload.
    + rewrite (PUT_rejected _ _ _ _ _ Hload).
      by rewrite (update_load_error _ _ Hload).
    + by apply update_load_ok in Hload as (? & _).
  - destruct (TaskUpdateSchema.load (TaskResponseSchema.dump t))
      as [e|p] eqn:Hload.
    + rewrite (PATCH_rejected _ _ _ _ _ Hload).
      by rewrite (update_load_error _ _ Hload).
    + by apply update_load_ok in Hload as (? & _).
Qed.

Lemma dispatch_titles_fit r utcnow st :
  titles_ok st ∧ titles_stripped st →
  titles_ok (dispatch r utcnow st).2 ∧ titles_stripped (dispatch r utcnow st).2.
Proof.
  unfold titles_ok, titles_stripped. intros [Hok Hstripped].
  destruct (dispatch_effect r utcnow st)
    as [->|[(body & s & b & _ & _ & Hs & ->)
          |[(task_id & body & p & t & _ & Hload & Ht & ->)
           |(task_id & t & _ & Ht & ->)]]]; simpl.
  - done.
  - split; (apply map_Forall_insert_2; [|done]); simpl.
    + by apply title_ok_strip.
    + apply strip_strip.
  - split; (apply map_Forall_insert_2; [|done]).
    + eapply apply_update_title_ok; [done|]. by apply (Hok task_id).
    + simpl. destruct (Payload.title p) as [[s|]|];
        [apply strip_strip|by apply (Hstripped task_id)..].
  - split; by apply map_Forall_delete.
Qed.

Lemma serve_titles_fit reqs :
  ∀ st, titles_ok st ∧ titles_stripped st →
        titles_ok (serve reqs st).2 ∧ titles_stripped (serve reqs st).2.
Proof.
  induction reqs as [|[r utcnow] reqs IH]; intros st Hinv; [done|].
  rewrite serve_cons. simpl. by apply IH, dispatch_titles_fit.
Qed.

Lemma editable_fields_load t :
  strip (Task.title t) ≠ [] →
  TaskUpdateSchema.load (editable_fields t) =
    inr {| Payload.title := Some (Some (Task.title t));
           Payload.completed := Some (Some (Task.completed t)) |}.
Proof.
  intros Hne%not_str_false.
  assert (editable_fields t !! "title" = Some (JStr (Task.title t))) as Ht
    by reflexivity.
  assert (editable_fields t !! "completed" = Some (JBool (Task.completed t)))
    as Hc by reflexivity.
  assert (raise_unknown (editable_fields t) = inr tt) as Hu.
  { unfold raise_unknown. rewrite bool_decide_eq_true_2; [done|].
    intros k [v Hk]%elem_of_dom.
    destruct (decide (k = "title")) as [->|?]; [set_solver|].
    destruct (decide (k = "completed")) as [->|?]; [set_solver|].
    unfold editable_fields in Hk.
    rewrite lookup_insert_ne, lookup_singleton_ne in Hk by done. done. }
  unfold TaskUpdateSchema.load, TaskUpdateSchema.validate_title.
  unfold_result. rewrite Ht, Hc, Hu. simpl. by rewrite Hne.
Qed.

(** X20: what a client may send back of a task is its title and its
    [completed].  For a task of a store reached by a run from the initial
    store, an update with exactly these two values, by PUT or by PATCH,
    is accepted and changes nothing but [updated_at]. *)
Theorem echo_changes_only_updated_at reqs task_id t utcnow :
  _TASKS (serve reqs initial).2 !! task_id = Some t →
  let st := (serve reqs initial).2 in
  let t' := set_updated_at (_now_iso utcnow) t in
  TaskResource.PUT task_id (editable_fields t) utcnow st =
    (inr t', with_tasks st (<[task_id := t']> (_TASKS st))) ∧
  TaskResource.PATCH task_id (editable_fields t) utcnow st =
    (inr t', with_tasks st (<[task_id := t']> (_TASKS st))).
Proof.
  intros Ht st t'.
  destruct (serve_titles_fit reqs initial) as [Hok Hstripped].
  { split; apply map_Forall_empty. }
  destruct (Hok task_id t Ht) as [Hne _].
  pose proof (Hstripped task_id t Ht) as Hfix. simpl in Hfix.
  assert (strip (Task.title t) ≠ []) as Hload%editable_fields_load
    by by rewrite Hfix.
  rewrite (PUT_accepted _ _ _ _ _ Hload), (PATCH_accepted _ _ _ _ _ Hload).
  fold st in Ht. rewrite Ht. simpl.
  assert (apply_update
            {| Payload.title := Some (Some (Task.title t));
               Payload.completed := Some (Some (Task.completed t)) |}
            (_now_iso utcnow) t = t') as ->; [|done].
  unfold apply_update, t', set_updated_at. simpl. by rewrite Hfix.
Qed.

Lemma echo_changes_only_updated_at_witness :
  _TASKS (serve one_request initial).2 !! 1 = Some buy_milk ∧
  TaskResource.PUT 1 (editable_fields buy_milk) clock1
      (serve one_request initial).2 =
    (inr (set_updated_at (_now_iso clock1) buy_milk),
     with_tasks (serve one_request initial).2
       (<[1 := set_updated_at (_now_iso clock1) buy_milk]>
          (_TASKS (serve one_request initial).2))) ∧
  TaskResource.PATCH 1 (editable_fields buy_milk) clock1
      (serve one_request initial).2 =
    (inr (set_updated_at (_now_iso clock1) buy_milk),
     with_tasks (serve one_request initial).2
       (<[1 := set_updated_at (_now_iso clock1) buy_milk]>
          (_TASKS (serve one_request initial).2))).
Proof.
  split; [reflexivity|].
  exact (echo_changes_only_updated_at one_request 1 buy_milk clock1 eq_refl).
Defined.

(** ** Timestamps compared as strings *)

(** X21: when two readings of the clock both have microseconds, or both
    have none, the timestamps [_now_iso] writes for them compare as
    strings the way the readings compare as instants.  (When only one has
    none, they need not: see [clock0_after_clock1_as_str].) *)
Theorem str_order_is_time_order a b :
  valid_datetime a = true → valid_datetime b = true →
  (microsecond a =? 0) = (microsecond b =? 0) →
  str_le (_now_iso a) (_now_iso b) = datetime_le a b.
Proof.
  intros Ha Hb Hus. exact (str_le_now_iso a b Ha Hb Hus).
Qed.

Lemma str_order_is_time_order_witness :
  valid_datetime clock1 = true ∧
  valid_datetime (mkdatetime 2024 5 17 9 29 59 999999) = true ∧
  (microsecond clock1 =? 0) =
    (microsecond (mkdatetime 2024 5 17 9 29 59 999999) =? 0) ∧
  str_le (_now_iso clock1) (_now_iso (mkdatetime 2024 5 17 9 29 59 999999)) =
    datetime_le clock1 (mkdatetime 2024 5 17 9 29 59 999999).
Proof.
  repeat (split; [reflexivity|]).
  exact (str_order_is_time_order clock1 (mkdatetime 2024 5 17 9 29 59 999999)
           eq_refl eq_refl eq_refl).
Defined.
